(** * A cascaded quadrotor controller: [controller.py]

    The controller of [src/python/controller.py] turns a sampled trajectory
    and the vehicle's estimated state into a thrust and three body moments.
    Every function of the class [NonlinearController] is embedded below, in
    the order of the source, and the properties of the specification are
    stated on these embeddings.

    Arithmetic.  The source computes in binary64 through NumPy.  The laws
    are verified over the real numbers: [+], [-], [*] and [/] are exact,
    [np.pi] is [PI], [np.cos] is [cos] and [np.linalg.norm] is the
    Euclidean norm.  Rounding and overflow are therefore outside that
    model.  A division by zero is inside it: NumPy does not raise there, it
    yields an infinity (nonzero / 0) or nan (0 / 0), neither of which is a
    real number, and the embedding returns [zero_divide] at that point
    instead of the artificial value that [Rdiv] has at zero.

    What rounding, overflow and nan do is told by binary64 only.  Every
    function but [roll_pitch_controller] is therefore embedded a second
    time, in the module [Binary64], on the primitive floats: there the
    clamp of [altitude_control] is verified for every input, and the
    properties that hold in exact arithmetic only are shown to fail on
    finite inputs. *)

From Stdlib Require Import Floats.
From Stdlib Require Import Reals Lra Lia ZArith List Sorted RelationClasses.
Import ListNotations.

Open Scope R_scope.

(** ** Values *)

(** The outcome of arithmetic that may divide by zero. *)
Inductive partial (A : Type) : Type :=
| value (a : A)
| zero_divide.

Arguments value {A} a.
Arguments zero_divide {A}.

Definition partial_map {A B : Type} (f : A -> B) (p : partial A) : partial B :=
  match p with
  | value a => value (f a)
  | zero_divide => zero_divide
  end.

(** [x / d] on NumPy scalars. *)
Definition np_divide (x d : R) : partial R :=
  if Req_dec_T d 0 then zero_divide else value (x / d).

(** Fixed-size NumPy arrays: 2-element and 3-element vectors of floats. *)
Definition vec2 : Type := R * R.
Definition vec3 : Type := R * R * R.

Module Vec3.

Definition zero : vec3 := (0, 0, 0).

(** [a + b], element-wise. *)
Definition add (a b : vec3) : vec3 :=
  let '(a0, a1, a2) := a in
  let '(b0, b1, b2) := b in
  (a0 + b0, a1 + b1, a2 + b2).

(** [a - b], element-wise. *)
Definition sub (a b : vec3) : vec3 :=
  let '(a0, a1, a2) := a in
  let '(b0, b1, b2) := b in
  (a0 - b0, a1 - b1, a2 - b2).

(** [a * b], element-wise (also [np.multiply]). *)
Definition mul (a b : vec3) : vec3 :=
  let '(a0, a1, a2) := a in
  let '(b0, b1, b2) := b in
  (a0 * b0, a1 * b1, a2 * b2).

(** [a * k] for a scalar [k]. *)
Definition scale (a : vec3) (k : R) : vec3 :=
  let '(a0, a1, a2) := a in
  (a0 * k, a1 * k, a2 * k).

(** [a / d] for a scalar [d]: by zero, every element is an infinity or nan. *)
Definition div (a : vec3) (d : R) : partial vec3 :=
  if Req_dec_T d 0 then zero_divide
  else let '(a0, a1, a2) := a in value (a0 / d, a1 / d, a2 / d).

(** [np.linalg.norm]. *)
Definition norm (a : vec3) : R :=
  let '(a0, a1, a2) := a in
  sqrt (a0 * a0 + a1 * a1 + a2 * a2).

End Vec3.

Module Vec2.

Definition zero : vec2 := (0, 0).

Definition add (a b : vec2) : vec2 :=
  let '(a0, a1) := a in
  let '(b0, b1) := b in
  (a0 + b0, a1 + b1).

Definition sub (a b : vec2) : vec2 :=
  let '(a0, a1) := a in
  let '(b0, b1) := b in
  (a0 - b0, a1 - b1).

(** [k * a] for a scalar [k]. *)
Definition scale (k : R) (a : vec2) : vec2 :=
  let '(a0, a1) := a in
  (k * a0, k * a1).

End Vec2.

(** ** Python and NumPy primitives *)

(** [l[i]] on a Python list: a negative index counts from the end, and an
    index outside [-len(l), len(l)) raises [IndexError] ([None]). *)
Definition py_index {A : Type} (l : list A) (i : Z) : option A :=
  let n := Z.of_nat (length l) in
  if (0 <=? i)%Z then nth_error l (Z.to_nat i)
  else if (0 <=? i + n)%Z then nth_error l (Z.to_nat (i + n))
  else None.

(** The scan behind [np.argmin]: [best] is the least element met so far and
    [ibest] its index; [i] is the index of the head of [l].  Only a strictly
    smaller element replaces [best], so the first minimum wins. *)
Fixpoint argmin_scan (l : list R) (i : nat) (best : R) (ibest : nat) : nat :=
  match l with
  | [] => ibest
  | x :: l' =>
      if Rlt_dec x best then argmin_scan l' (S i) x i
      else argmin_scan l' (S i) best ibest
  end.

(** [np.argmin(l)]: the index of the first occurrence of the minimum;
    [ValueError] ([None]) on an empty array. *)
Definition np_argmin (l : list R) : option nat :=
  match l with
  | [] => None
  | x :: l' => Some (argmin_scan l' 1 x 0)
  end.

(** [np.clip(x, lo, hi)], that is [minimum(maximum(x, lo), hi)]. *)
Definition np_clip (x lo hi : R) : R := Rmin (Rmax x lo) hi.

(** ** Constants and gains *)

Definition DRONE_MASS_KG : R := 0.5.
Definition GRAVITY : R := -9.81.
Definition MOI : vec3 := (0.005, 0.005, 0.01).
Definition MAX_THRUST : R := 10.
Definition MAX_TORQUE : R := 1.

(** The attributes that [__init__] stores. *)
Record NonlinearController : Type := {
  Kp_lateral_pos : R;
  Kd_lateral_pos : R;
  Kp_alt : R;
  Kd_alt : R;
  Kp_roll : R;
  Kp_pitch : R;
  Kp_yaw : R;
  Kp_p : R;
  Kp_q : R;
  Kp_r : R
}.

(** [NonlinearController()]: the default arguments of [__init__]. *)
Definition default_controller : NonlinearController := {|
  Kp_lateral_pos := 6;
  Kd_lateral_pos := 4;
  Kp_alt := 4;
  Kd_alt := 1.5;
  Kp_roll := 8;
  Kp_pitch := 8;
  Kp_yaw := 4.5;
  Kp_p := 20;
  Kp_q := 20;
  Kp_r := 5
|}.

(** ** [trajectory_control] *)

(** The tuple [(position_cmd, velocity_cmd, yaw_cmd)] that the function
    returns. *)
Record setpoint : Type := {
  position_cmd : partial vec3;
  velocity_cmd : partial vec3;
  yaw_cmd : R
}.

Notation "x <- e ;; k" :=
  (match e with Some x => k | None => None end)
  (at level 61, e at next level, right associativity, only parsing).

(** Lines 97-99: the linear interpolation over the chosen segment. *)
Definition interpolate (position0 position1 : vec3) (time0 time1 : R)
    (yaw : R) (current_time : R) : setpoint :=
  {| position_cmd :=
       partial_map (fun q => Vec3.add q position0)
         (Vec3.div
            (Vec3.scale (Vec3.sub position1 position0) (current_time - time0))
            (time1 - time0));
     velocity_cmd := Vec3.div (Vec3.sub position1 position0) (time1 - time0);
     yaw_cmd := yaw |}.

(** [None] stands for a Python exception: [ValueError] from [np.argmin] on
    an empty [time_trajectory], [IndexError] from a list shorter than the
    index asks for. *)
Definition trajectory_control
    (position_trajectory : list vec3) (yaw_trajectory time_trajectory : list R)
    (current_time : R) : option setpoint :=
  ind_min <- np_argmin (map (fun t => Rabs (t - current_time)) time_trajectory) ;;
  let ind_min := Z.of_nat ind_min in
  time_ref <- py_index time_trajectory ind_min ;;
  if Rlt_dec current_time time_ref then
    position0 <- py_index position_trajectory (ind_min - 1) ;;
    position1 <- py_index position_trajectory ind_min ;;
    time0 <- py_index time_trajectory (ind_min - 1) ;;
    time1 <- py_index time_trajectory ind_min ;;
    yaw <- py_index yaw_trajectory (ind_min - 1) ;;
    Some (interpolate position0 position1 time0 time1 yaw current_time)
  else
    yaw <- py_index yaw_trajectory ind_min ;;
    if (ind_min >=? Z.of_nat (length position_trajectory) - 1)%Z then
      position0 <- py_index position_trajectory ind_min ;;
      position1 <- py_index position_trajectory ind_min ;;
      Some (interpolate position0 position1 0 1 yaw current_time)
    else
      position0 <- py_index position_trajectory ind_min ;;
      position1 <- py_index position_trajectory (ind_min + 1) ;;
      time0 <- py_index time_trajectory ind_min ;;
      time1 <- py_index time_trajectory (ind_min + 1) ;;
      Some (interpolate position0 position1 time0 time1 yaw current_time).

(** ** [lateral_position_control] *)

(** The default value of the argument [acceleration_ff]. *)
Definition lateral_ff_default : vec2 := (0, 0).

Definition lateral_position_control (self : NonlinearController)
    (local_position_cmd local_velocity_cmd local_position local_velocity : vec2)
    (acceleration_ff : vec2) : vec2 :=
  let lateral_pos_error := Vec2.sub local_position_cmd local_position in
  let p_term := Vec2.scale (Kp_lateral_pos self) lateral_pos_error in
  let lateral_pos_dot_error := Vec2.sub local_velocity_cmd local_velocity in
  let d_term := Vec2.scale (Kd_lateral_pos self) lateral_pos_dot_error in
  let acc_cmd := Vec2.add (Vec2.add p_term d_term) acceleration_ff in
  acc_cmd.

(** ** [altitude_control] *)

(** [attitude] is the array [(roll, pitch, yaw)]; [attitude[0]] and
    [attitude[1]] are read.  When [b_z] is zero the quotient is not a real
    number and the embedding stops there.  (On binary64 the quotient is then
    nan for a zero numerator, which fails both comparisons and is returned
    as it is, and an infinity otherwise, which the comparisons clamp.) *)
Definition altitude_control (self : NonlinearController)
    (altitude_cmd vertical_velocity_cmd altitude vertical_velocity : R)
    (attitude : vec3) (acceleration_ff : R) : partial R :=
  let '(roll, pitch, _) := attitude in
  let alt_error := altitude_cmd - altitude in
  let p_term := Kp_alt self * alt_error in
  let alt_dot_error := vertical_velocity_cmd - vertical_velocity in
  let d_term := Kd_alt self * alt_dot_error in
  let acc_cmd := p_term + d_term + acceleration_ff in
  let b_z := cos roll * cos pitch in
  partial_map
    (fun thrust =>
       if Rgt_dec thrust MAX_THRUST then MAX_THRUST
       else if Rlt_dec thrust 0 then 0
       else thrust)
    (np_divide (DRONE_MASS_KG * acc_cmd) b_z).

(** *** The source on binary64

    The functions whose behaviour on binary64 departs from their behaviour
    over the reals, embedded on the primitive floats: [altitude_control]
    here, and further down [trajectory_control],
    [lateral_position_control], [body_rate_control] and [yaw_control]. *)

Module Binary64.

Definition DRONE_MASS_KG : float := 0.5%float.
Definition MAX_THRUST : float := 10%float.

Section AltitudeControl.

(** [np.cos], a function of the platform's mathematical library. *)
Variable np_cos : float -> float.

(** The gains [self.Kp_alt] and [self.Kd_alt]. *)
Variables Kp_alt Kd_alt : float.

(** [thrust > MAX_THRUST] is [MAX_THRUST < thrust]; every comparison with
    nan is false. *)
Definition altitude_control
    (altitude_cmd vertical_velocity_cmd altitude vertical_velocity : float)
    (attitude : float * float * float) (acceleration_ff : float) : float :=
  let '(roll, pitch, _) := attitude in
  let alt_error := (altitude_cmd - altitude)%float in
  let p_term := (Kp_alt * alt_error)%float in
  let alt_dot_error := (vertical_velocity_cmd - vertical_velocity)%float in
  let d_term := (Kd_alt * alt_dot_error)%float in
  let acc_cmd := (p_term + d_term + acceleration_ff)%float in
  let b_z := (np_cos roll * np_cos pitch)%float in
  let thrust := (DRONE_MASS_KG * acc_cmd / b_z)%float in
  if (MAX_THRUST <? thrust)%float then MAX_THRUST
  else if (thrust <? 0)%float then 0%float
  else thrust.

End AltitudeControl.

(** [x] is a number (not nan) between [lo] and [hi]. *)
Definition within (lo hi x : float) : Prop :=
  (lo <=? x)%float = true /\ (x <=? hi)%float = true.

(** **** NumPy arrays of binary64 numbers

    Element-wise operations on 2-element and 3-element arrays.  Nothing is
    partial here: a division by zero is an infinity or nan, and the
    computation goes on. *)
Definition vec2 : Type := float * float.
Definition vec3 : Type := float * float * float.

Definition add2 (a b : vec2) : vec2 :=
  let '(a0, a1) := a in
  let '(b0, b1) := b in
  (a0 + b0, a1 + b1)%float.

Definition sub2 (a b : vec2) : vec2 :=
  let '(a0, a1) := a in
  let '(b0, b1) := b in
  (a0 - b0, a1 - b1)%float.

(** [k * a] for a scalar [k]. *)
Definition scale2 (k : float) (a : vec2) : vec2 :=
  let '(a0, a1) := a in
  (k * a0, k * a1)%float.

Definition add3 (a b : vec3) : vec3 :=
  let '(a0, a1, a2) := a in
  let '(b0, b1, b2) := b in
  (a0 + b0, a1 + b1, a2 + b2)%float.

Definition sub3 (a b : vec3) : vec3 :=
  let '(a0, a1, a2) := a in
  let '(b0, b1, b2) := b in
  (a0 - b0, a1 - b1, a2 - b2)%float.

Definition mul3 (a b : vec3) : vec3 :=
  let '(a0, a1, a2) := a in
  let '(b0, b1, b2) := b in
  (a0 * b0, a1 * b1, a2 * b2)%float.

(** [a * k] for a scalar [k]. *)
Definition scale3 (a : vec3) (k : float) : vec3 :=
  let '(a0, a1, a2) := a in
  (a0 * k, a1 * k, a2 * k)%float.

(** [a / d] for a scalar [d]. *)
Definition div3 (a : vec3) (d : float) : vec3 :=
  let '(a0, a1, a2) := a in
  (a0 / d, a1 / d, a2 / d)%float.

(** [np.linalg.norm] of a 1-D array: the square root of the dot product of
    the array with itself.  The sum is taken from left to right; the
    properties below use arrays on which the order does not matter. *)
Definition norm (a : vec3) : float :=
  let '(a0, a1, a2) := a in
  PrimFloat.sqrt (a0 * a0 + a1 * a1 + a2 * a2)%float.

(** The scan behind [np.argmin] on floats.  An element replaces [best] when
    [best <= x] fails, that is when [x] is smaller or nan; nan is minimal,
    and the scan stops at the first one. *)
Fixpoint argmin_scan (l : list float) (i : nat) (best : float) (ibest : nat)
    : nat :=
  match l with
  | [] => ibest
  | x :: l' =>
      if (best <=? x)%float then argmin_scan l' (S i) best ibest
      else if is_nan x then i
      else argmin_scan l' (S i) x i
  end.

Definition np_argmin (l : list float) : option nat :=
  match l with
  | [] => None
  | x :: l' => Some (if is_nan x then 0%nat else argmin_scan l' 1 x 0)
  end.

(** [np.clip(x, lo, hi)] is [minimum(maximum(x, lo), hi)], and a nan [x]
    stays nan. *)
Definition np_clip (x lo hi : float) : float :=
  let raised := if is_nan x then x else if (lo <? x)%float then x else lo in
  if is_nan raised then raised
  else if (raised <? hi)%float then raised else hi.

(** **** [trajectory_control] on binary64 *)

Record setpoint : Type := {
  position_cmd : vec3;
  velocity_cmd : vec3;
  yaw_cmd : float
}.

(** Lines 97-99. *)
Definition interpolate (position0 position1 : vec3) (time0 time1 : float)
    (yaw : float) (current_time : float) : setpoint :=
  {| position_cmd :=
       add3
         (div3 (scale3 (sub3 position1 position0) (current_time - time0))
            (time1 - time0))
         position0;
     velocity_cmd := div3 (sub3 position1 position0) (time1 - time0);
     yaw_cmd := yaw |}.

Definition trajectory_control
    (position_trajectory : list vec3)
    (yaw_trajectory time_trajectory : list float)
    (current_time : float) : option setpoint :=
  ind_min <-
    np_argmin (map (fun t => abs (t - current_time)) time_trajectory) ;;
  let ind_min := Z.of_nat ind_min in
  time_ref <- py_index time_trajectory ind_min ;;
  if (current_time <? time_ref)%float then
    position0 <- py_index position_trajectory (ind_min - 1) ;;
    position1 <- py_index position_trajectory ind_min ;;
    time0 <- py_index time_trajectory (ind_min - 1) ;;
    time1 <- py_index time_trajectory ind_min ;;
    yaw <- py_index yaw_trajectory (ind_min - 1) ;;
    Some (interpolate position0 position1 time0 time1 yaw current_time)
  else
    yaw <- py_index yaw_trajectory ind_min ;;
    if (ind_min >=? Z.of_nat (length position_trajectory) - 1)%Z then
      position0 <- py_index position_trajectory ind_min ;;
      position1 <- py_index position_trajectory ind_min ;;
      Some (interpolate position0 position1 0 1 yaw current_time)
    else
      position0 <- py_index position_trajectory ind_min ;;
      position1 <- py_index position_trajectory (ind_min + 1) ;;
      time0 <- py_index time_trajectory ind_min ;;
      time1 <- py_index time_trajectory (ind_min + 1) ;;
      Some (interpolate position0 position1 time0 time1 yaw current_time).

(** **** [lateral_position_control] on binary64 *)

Definition lateral_position_control (Kp_lateral_pos Kd_lateral_pos : float)
    (local_position_cmd local_velocity_cmd local_position local_velocity : vec2)
    (acceleration_ff : vec2) : vec2 :=
  let lateral_pos_error := sub2 local_position_cmd local_position in
  let p_term := scale2 Kp_lateral_pos lateral_pos_error in
  let lateral_pos_dot_error := sub2 local_velocity_cmd local_velocity in
  let d_term := scale2 Kd_lateral_pos lateral_pos_dot_error in
  let acc_cmd := add2 (add2 p_term d_term) acceleration_ff in
  acc_cmd.

(** **** [body_rate_control] on binary64 *)

(** The literals 0.005 and 0.01 denote the binary64 numbers nearest
    to them. *)
#[warnings="-inexact-float"]
Definition MOI : vec3 := (0.005, 0.005, 0.01)%float.
Definition MAX_TORQUE : float := 1%float.

Definition body_rate_control (Kp_p Kp_q Kp_r : float)
    (body_rate_cmd body_rate : vec3) : vec3 :=
  let rate_err := sub3 body_rate_cmd body_rate in
  let Kp_rate := (Kp_p, Kp_q, Kp_r) in
  let m_c := mul3 MOI (mul3 Kp_rate rate_err) in
  let m_c_value := norm m_c in
  if (MAX_TORQUE <? m_c_value)%float then
    div3 (scale3 m_c MAX_TORQUE) m_c_value
  else m_c.

(** **** [yaw_control] on binary64 *)

(** [np.pi], the binary64 number nearest to pi. *)
Definition np_pi : float := 0x1.921fb54442d18p+1%float.

Definition yaw_control (Kp_yaw : float) (yaw_cmd yaw : float) : float :=
  let yaw_err := (yaw_cmd - yaw)%float in
  let yaw_err :=
    if (np_pi <? yaw_err)%float then (yaw_err - 2 * np_pi)%float
    else if (yaw_err <? - np_pi)%float then (yaw_err + 2 * np_pi)%float
    else yaw_err in
  let r_c := (Kp_yaw * yaw_err)%float in
  np_clip r_c 0 (2 * np_pi).

(** The three elements of [a] are numbers: none is an infinity or nan. *)
Definition is_finite3 (a : vec3) : bool :=
  let '(a0, a1, a2) := a in
  (is_finite a0 && is_finite a1 && is_finite a2)%bool.

(** [a == b] in every element. *)
Definition eqb3 (a b : vec3) : bool :=
  let '(a0, a1, a2) := a in
  let '(b0, b1, b2) := b in
  ((a0 =? b0)%float && (a1 =? b1)%float && (a2 =? b2)%float)%bool.

(** The number that a finite binary64 value denotes, as a fraction
    [n / d] of integers: [exact x = Some (n, d)]. *)
Definition exact (x : float) : option (Z * Z) :=
  match Prim2SF x with
  | S754_zero _ => Some (0, 1)%Z
  | S754_finite s m e =>
      let n := if s then Z.neg m else Z.pos m in
      Some (if (0 <=? e)%Z then (n * 2 ^ e, 1)%Z else (n, 2 ^ (- e))%Z)
  | _ => None
  end.

End Binary64.

(** ** [roll_pitch_controller] *)

(** A 3x3 matrix, by rows; [entry m i j] is [m[i,j]]. *)
Definition mat3 : Type := vec3 * vec3 * vec3.

Definition entry (m : mat3) (i j : nat) : R :=
  let '(r0, r1, r2) := m in
  let '(c0, c1, c2) :=
    match i with
    | O => r0
    | S O => r1
    | _ => r2
    end in
  match j with
  | O => c0
  | S O => c1
  | _ => c2
  end.

Section RollPitch.

(** [frame_utils.euler2RM], imported by the source and not part of it:
    the rotation matrix of the attitude [(roll, pitch, yaw)]. *)
Variable euler2RM : R -> R -> R -> mat3.

Definition roll_pitch_controller (self : NonlinearController)
    (acceleration_cmd : vec2) (attitude : vec3) (thrust_cmd : R)
    : partial vec2 :=
  if Rgt_dec thrust_cmd 0 then
    let c := -1 * thrust_cmd / DRONE_MASS_KG in
    let '(acc_n, acc_e) := acceleration_cmd in
    match np_divide acc_n c, np_divide acc_e c with
    | value t_x, value t_y =>
        let b_x_c_target := np_clip t_x (-1) 1 in
        let b_y_c_target := np_clip t_y (-1) 1 in
        let '(roll, pitch, yaw) := attitude in
        let rot_mat := euler2RM roll pitch yaw in
        let b_x := entry rot_mat 0 2 in
        let b_x_err := b_x_c_target - b_x in
        let b_x_p_term := Kp_roll self * b_x_err in
        let b_y := entry rot_mat 1 2 in
        let b_y_err := b_y_c_target - b_y in
        let b_y_p_term := Kp_pitch self * b_y_err in
        let b_x_cmd_dot := b_x_p_term in
        let b_y_cmd_dot := b_y_p_term in
        let r22 := entry rot_mat 2 2 in
        match np_divide (entry rot_mat 1 0) r22,
              np_divide (- entry rot_mat 0 0) r22,
              np_divide (entry rot_mat 1 1) r22,
              np_divide (- entry rot_mat 0 1) r22 with
        | value m00, value m01, value m10, value m11 =>
            let p_c := m00 * b_x_cmd_dot + m01 * b_y_cmd_dot in
            let q_c := m10 * b_x_cmd_dot + m11 * b_y_cmd_dot in
            value (p_c, q_c)
        | _, _, _, _ => zero_divide
        end
    | _, _ => zero_divide
    end
  else
    (* the source also sets its local [thrust_cmd] to 0, which nothing reads *)
    let p_c := 0 in
    let q_c := 0 in
    value (p_c, q_c).

End RollPitch.

(** ** [body_rate_control] *)

Definition body_rate_control (self : NonlinearController)
    (body_rate_cmd body_rate : vec3) : partial vec3 :=
  let rate_err := Vec3.sub body_rate_cmd body_rate in
  let Kp_rate := (Kp_p self, Kp_q self, Kp_r self) in
  let m_c := Vec3.mul MOI (Vec3.mul Kp_rate rate_err) in
  let m_c_value := Vec3.norm m_c in
  if Rgt_dec m_c_value MAX_TORQUE then
    Vec3.div (Vec3.scale m_c MAX_TORQUE) m_c_value
  else value m_c.

(** ** [yaw_control] *)

Definition yaw_control (self : NonlinearController) (yaw_cmd yaw : R) : R :=
  let yaw_err := yaw_cmd - yaw in
  let yaw_err :=
    if Rgt_dec yaw_err PI then yaw_err - 2 * PI
    else if Rlt_dec yaw_err (- PI) then yaw_err + 2 * PI
    else yaw_err in
  let r_c := Kp_yaw self * yaw_err in
  np_clip r_c 0 (2 * PI).

(** ** Trajectories *)

(** One sample of a trajectory.  The source receives a trajectory as three
    lists, [position_trajectory], [yaw_trajectory] and [time_trajectory],
    whose elements correspond index by index (its docstring); a list of
    samples is such a triple of lists of one length. *)
Record sample : Type := {
  sample_position : vec3;
  sample_yaw : R;
  sample_time : R
}.

(** The result [r] of [trajectory_control] is the sample [s]: the call
    returns, [position_cmd] is the position of [s] and [yaw_cmd] its yaw. *)
Definition returns_sample (r : option setpoint) (s : sample) : Prop :=
  exists sp : setpoint,
    r = Some sp /\
    position_cmd sp = value (sample_position s) /\
    yaw_cmd sp = sample_yaw s.

(** No sample of the trajectory other than the one of index [i] has the
    time [t]. *)
Definition unshared_time (trajectory : list sample) (i : nat) (t : R) : Prop :=
  forall (j : nat) (s : sample),
    nth_error trajectory j = Some s -> j <> i -> sample_time s <> t.

(** ** Yaw errors *)

(** [e] is the yaw error [err] wrapped into the interval (-pi, pi]: the
    representative of [err] modulo a full turn that lies in that interval. *)
Definition wrapped (e err : R) : Prop :=
  - PI < e <= PI /\ exists k : Z, e = err + 2 * IZR k * PI.

(** ** Boxes *)

(** [x] lies between [a] and [b], whichever is the smaller. *)
Definition between (a b x : R) : Prop := Rmin a b <= x <= Rmax a b.

(** [p] lies in the axis-aligned box spanned by [p0] and [p1]. *)
Definition in_box (p0 p1 p : vec3) : Prop :=
  let '(x0, y0, z0) := p0 in
  let '(x1, y1, z1) := p1 in
  let '(x, y, z) := p in
  between x0 x1 x /\ between y0 y1 y /\ between z0 z1 z.

(** ** Tactics *)

(** Settles the first comparison of the goal whose outcome [lra] can tell. *)
Ltac settle_comparison :=
  match goal with
  | |- context [Rcase_abs ?a] =>
      destruct (Rcase_abs a); [ try (exfalso; lra) | try (exfalso; lra) ]
  | |- context [Rlt_dec ?a ?b] =>
      destruct (Rlt_dec a b); [ try (exfalso; lra) | try (exfalso; lra) ]
  | |- context [Rgt_dec ?a ?b] =>
      destruct (Rgt_dec a b); [ try (exfalso; lra) | try (exfalso; lra) ]
  | |- context [Req_dec_T ?a ?b] =>
      destruct (Req_dec_T a b); [ try (exfalso; lra) | try (exfalso; lra) ]
  end.

(** Reduces an equation between vectors to equations between their elements. *)
Ltac by_elements :=
  repeat match goal with
    | |- value _ = value _ => apply f_equal
    | |- (_, _) = (_, _) => apply f_equal2
    end.

(** * Properties *)

(** ** Indexing *)

Lemma py_index_of_nat {A : Type} (l : list A) (i : nat) :
  py_index l (Z.of_nat i) = nth_error l i.
Proof.
  unfold py_index.
  destruct (Z.leb_spec 0 (Z.of_nat i)); [ | lia ].
  now rewrite Nat2Z.id.
Qed.

Lemma py_index_succ {A : Type} (l : list A) (i : nat) :
  py_index l (Z.of_nat i + 1) = nth_error l (S i).
Proof.
  replace (Z.of_nat i + 1)%Z with (Z.of_nat (S i)) by lia.
  apply py_index_of_nat.
Qed.

Lemma py_index_pred {A : Type} (l : list A) (i : nat) :
  py_index l (Z.of_nat (S i) - 1) = nth_error l i.
Proof.
  replace (Z.of_nat (S i) - 1)%Z with (Z.of_nat i) by lia.
  apply py_index_of_nat.
Qed.

(** [l[-1]] is the last element. *)
Lemma py_index_minus_one {A : Type} (l : list A) (a : A) :
  py_index (l ++ [a]) (-1) = Some a.
Proof.
  unfold py_index.
  destruct (Z.leb_spec 0 (-1)); [ lia | ].
  rewrite length_app; cbn [length].
  destruct (Z.leb_spec 0 (-1 + Z.of_nat (length l + 1))); [ | lia ].
  replace (Z.to_nat (-1 + Z.of_nat (length l + 1))) with (length l) by lia.
  rewrite nth_error_app2 by lia.
  now rewrite Nat.sub_diag.
Qed.

Lemma nth_error_last {A : Type} (l : list A) (a : A) :
  nth_error (l ++ [a]) (length l) = Some a.
Proof.
  rewrite nth_error_app2 by lia.
  now rewrite Nat.sub_diag.
Qed.

(** ** [np.argmin] returns the first minimum *)

Lemma argmin_scan_keep (l : list R) (i : nat) (best : R) (ibest : nat) :
  (forall x, In x l -> best <= x) ->
  argmin_scan l i best ibest = ibest.
Proof.
  revert i; induction l as [ | x l IH ]; intros i Hmin; cbn; [ reflexivity | ].
  destruct (Rlt_dec x best) as [ Hlt | _ ].
  - specialize (Hmin x (or_introl eq_refl)); lra.
  - apply IH; intros y Hy; apply Hmin; now right.
Qed.

Lemma argmin_scan_find (l : list R) (k : nat) (v : R) :
  nth_error l k = Some v ->
  (forall j x, (j < k)%nat -> nth_error l j = Some x -> v < x) ->
  (forall x, In x l -> v <= x) ->
  forall (i : nat) (best : R) (ibest : nat),
    v < best -> argmin_scan l i best ibest = (i + k)%nat.
Proof.
  revert k; induction l as [ | x l IH ]; intros k Hk Hbefore Hmin i best ibest Hv.
  - now destruct k.
  - destruct k as [ | k ]; cbn in Hk |- *.
    + injection Hk as ->.
      destruct (Rlt_dec v best) as [ _ | Hn ]; [ | contradiction ].
      rewrite argmin_scan_keep; [ lia | ].
      intros y Hy; apply Hmin; now right.
    + assert (Hx : v < x) by (apply (Hbefore 0%nat); [ lia | reflexivity ]).
      assert (Hbefore' : forall j y, (j < k)%nat -> nth_error l j = Some y -> v < y).
      { intros j y Hj Hy; apply (Hbefore (S j)); [ lia | exact Hy ]. }
      assert (Hmin' : forall y, In y l -> v <= y).
      { intros y Hy; apply Hmin; now right. }
      destruct (Rlt_dec x best).
      * rewrite (IH k Hk Hbefore' Hmin' (S i) x i Hx); lia.
      * rewrite (IH k Hk Hbefore' Hmin' (S i) best ibest Hv); lia.
Qed.

Lemma np_argmin_first_min (l : list R) (k : nat) (v : R) :
  nth_error l k = Some v ->
  (forall j x, (j < k)%nat -> nth_error l j = Some x -> v < x) ->
  (forall x, In x l -> v <= x) ->
  np_argmin l = Some k.
Proof.
  destruct l as [ | x l ]; intros Hk Hbefore Hmin.
  - now destruct k.
  - cbn; f_equal.
    destruct k as [ | k ]; cbn in Hk.
    + injection Hk as ->.
      apply argmin_scan_keep; intros y Hy; apply Hmin; now right.
    + rewrite (argmin_scan_find l k v Hk).
      * reflexivity.
      * intros j y Hj Hy; apply (Hbefore (S j)); [ lia | exact Hy ].
      * intros y Hy; apply Hmin; now right.
      * apply (Hbefore 0%nat); [ lia | reflexivity ].
Qed.

(** ** [np.clip] *)

Lemma np_clip_inside (x lo hi : R) : lo <= x <= hi -> np_clip x lo hi = x.
Proof.
  intros [ Hlo Hhi ]; unfold np_clip.
  rewrite Rmax_left by exact Hlo.
  now rewrite Rmin_left.
Qed.

Lemma np_clip_within (x lo hi : R) : lo <= hi -> lo <= np_clip x lo hi <= hi.
Proof.
  intros Hle; unfold np_clip, Rmin, Rmax.
  destruct (Rle_dec x lo), (Rle_dec _ hi); lra.
Qed.

(** ** Vectors *)

Lemma vec3_hold (p : vec3) (dt : R) :
  partial_map (fun q => Vec3.add q p)
    (Vec3.div (Vec3.scale (Vec3.sub p p) dt) (1 - 0)) = value p.
Proof.
  destruct p as [[x y] z]; unfold Vec3.div; cbn.
  settle_comparison; cbn.
  by_elements; field.
Qed.

Lemma vec3_still (p : vec3) :
  Vec3.div (Vec3.sub p p) (1 - 0) = value Vec3.zero.
Proof.
  destruct p as [[x y] z]; unfold Vec3.div, Vec3.zero; cbn.
  settle_comparison.
  by_elements; field.
Qed.

(** At the start of a segment of nonzero duration the interpolation is the
    segment's first position. *)
Lemma vec3_segment_start (p0 p1 : vec3) (t0 t1 : R) :
  t1 <> t0 ->
  partial_map (fun q => Vec3.add q p0)
    (Vec3.div (Vec3.scale (Vec3.sub p1 p0) (t0 - t0)) (t1 - t0)) = value p0.
Proof.
  intros Ht.
  destruct p0 as [[x0 y0] z0], p1 as [[x1 y1] z1]; unfold Vec3.div; cbn.
  settle_comparison; cbn.
  by_elements; field; lra.
Qed.

(** Lines 97-99 on a segment of nonzero duration, element by element. *)
Lemma interpolate_defined (x0 y0 z0 x1 y1 z1 : R) (time0 time1 yaw : R)
    (current_time : R) :
  time1 <> time0 ->
  interpolate (x0, y0, z0) (x1, y1, z1) time0 time1 yaw current_time
  = {| position_cmd :=
         value ((x1 - x0) * (current_time - time0) / (time1 - time0) + x0,
                (y1 - y0) * (current_time - time0) / (time1 - time0) + y0,
                (z1 - z0) * (current_time - time0) / (time1 - time0) + z0);
       velocity_cmd :=
         value ((x1 - x0) / (time1 - time0),
                (y1 - y0) / (time1 - time0),
                (z1 - z0) / (time1 - time0));
       yaw_cmd := yaw |}.
Proof.
  intros Hduration.
  unfold interpolate, Vec3.div; cbn.
  settle_comparison.
  reflexivity.
Qed.

(** Lines 97-99 on a segment of zero duration: both divisions are by zero. *)
Lemma interpolate_zero_duration (position0 position1 : vec3) (time0 yaw : R)
    (current_time : R) :
  interpolate position0 position1 time0 time0 yaw current_time
  = {| position_cmd := zero_divide;
       velocity_cmd := zero_divide;
       yaw_cmd := yaw |}.
Proof.
  unfold interpolate, Vec3.div.
  settle_comparison.
  reflexivity.
Qed.

(** ** The branches of [trajectory_control] *)

Section Branches.

Variables (position_trajectory : list vec3).
Variables (yaw_trajectory time_trajectory : list R).
Variables (current_time : R) (ind_min : nat) (time_ref : R).

Hypothesis nearest :
  np_argmin (map (fun t => Rabs (t - current_time)) time_trajectory)
  = Some ind_min.
Hypothesis reference : nth_error time_trajectory ind_min = Some time_ref.

(** [current_time < time_ref] at index 0: the index [-1] reads the last
    sample (lines 75-80). *)
Lemma trajectory_control_wraps (position0 position1 : vec3) (time0 yaw : R) :
  ind_min = 0%nat ->
  current_time < time_ref ->
  py_index position_trajectory (-1) = Some position0 ->
  nth_error position_trajectory 0 = Some position1 ->
  py_index time_trajectory (-1) = Some time0 ->
  py_index yaw_trajectory (-1) = Some yaw ->
  trajectory_control position_trajectory yaw_trajectory time_trajectory
    current_time
  = Some (interpolate position0 position1 time0 time_ref yaw current_time).
Proof.
  intros Hk Hlt Hp0 Hp1 Ht0 Hy.
  unfold trajectory_control; rewrite nearest, Hk.
  change (Z.of_nat 0 - 1)%Z with (-1)%Z.
  rewrite !py_index_of_nat, <- Hk, reference, Hk, Hp0, Hp1, Ht0, Hy.
  destruct (Rlt_dec current_time time_ref) as [ _ | Hn ]; [ | contradiction ].
  reflexivity.
Qed.

(** [current_time < time_ref] at a later index: the segment that ends at
    [ind_min] (lines 75-80). *)
Lemma trajectory_control_backward (k : nat)
    (position0 position1 : vec3) (time0 yaw : R) :
  ind_min = S k ->
  current_time < time_ref ->
  nth_error position_trajectory k = Some position0 ->
  nth_error position_trajectory (S k) = Some position1 ->
  nth_error time_trajectory k = Some time0 ->
  nth_error yaw_trajectory k = Some yaw ->
  trajectory_control position_trajectory yaw_trajectory time_trajectory
    current_time
  = Some (interpolate position0 position1 time0 time_ref yaw current_time).
Proof.
  intros Hk Hlt Hp0 Hp1 Ht0 Hy.
  unfold trajectory_control; rewrite nearest, Hk.
  rewrite !py_index_pred, !py_index_of_nat, <- Hk, reference, Hk.
  rewrite Hp0, Hp1, Ht0, Hy.
  destruct (Rlt_dec current_time time_ref) as [ _ | Hn ]; [ | contradiction ].
  reflexivity.
Qed.

(** [current_time >= time_ref] at the last index: both ends of the
    segment are the last position and its duration is 1 (lines 83-89). *)
Lemma trajectory_control_holds (position0 : vec3) (yaw : R) :
  ~ current_time < time_ref ->
  (length position_trajectory <= S ind_min)%nat ->
  nth_error position_trajectory ind_min = Some position0 ->
  nth_error yaw_trajectory ind_min = Some yaw ->
  trajectory_control position_trajectory yaw_trajectory time_trajectory
    current_time
  = Some (interpolate position0 position0 0 1 yaw current_time).
Proof.
  intros Hge Hlast Hp0 Hy.
  unfold trajectory_control; rewrite nearest.
  rewrite !py_index_of_nat, reference, Hy, Hp0.
  destruct (Rlt_dec current_time time_ref) as [ Hlt | _ ]; [ contradiction | ].
  destruct (Z.geb_spec (Z.of_nat ind_min)
              (Z.of_nat (length position_trajectory) - 1)); [ | lia ].
  reflexivity.
Qed.

(** [current_time >= time_ref] before the last index: the segment that
    starts at [ind_min] (lines 83, 92-95). *)
Lemma trajectory_control_forward (position0 position1 : vec3) (time1 yaw : R) :
  ~ current_time < time_ref ->
  (S ind_min < length position_trajectory)%nat ->
  nth_error position_trajectory ind_min = Some position0 ->
  nth_error position_trajectory (S ind_min) = Some position1 ->
  nth_error time_trajectory (S ind_min) = Some time1 ->
  nth_error yaw_trajectory ind_min = Some yaw ->
  trajectory_control position_trajectory yaw_trajectory time_trajectory
    current_time
  = Some (interpolate position0 position1 time_ref time1 yaw current_time).
Proof.
  intros Hge Hin Hp0 Hp1 Ht1 Hy.
  unfold trajectory_control; rewrite nearest.
  rewrite !py_index_succ, !py_index_of_nat, reference, Hy, Hp0, Hp1, Ht1.
  destruct (Rlt_dec current_time time_ref) as [ Hlt | _ ]; [ contradiction | ].
  destruct (Z.geb_spec (Z.of_nat ind_min)
              (Z.of_nat (length position_trajectory) - 1)); [ lia | ].
  reflexivity.
Qed.

End Branches.

(** ** Strictly increasing times *)

Lemma increasing_nth (l : list R) :
  Sorted Rlt l ->
  forall (i j : nat) (a b : R),
    nth_error l i = Some a -> nth_error l j = Some b -> (i < j)%nat -> a < b.
Proof.
  intros Hsorted.
  apply Sorted_StronglySorted in Hsorted; [ | exact Rlt_trans ].
  induction Hsorted as [ | x l _ IH Hall ]; intros i j a b Hi Hj Hij.
  - now destruct i.
  - destruct j as [ | j ]; [ lia | ].
    destruct i as [ | i ]; cbn in Hi, Hj.
    + injection Hi as <-.
      rewrite Forall_forall in Hall.
      apply Hall, (nth_error_In _ _ Hj).
    + apply (IH i j); [ assumption | assumption | lia ].
Qed.

Lemma nth_error_map_some {A B : Type} (f : A -> B) (l : list A) (i : nat) (a : A) :
  nth_error l i = Some a -> nth_error (map f l) i = Some (f a).
Proof.
  intros H; now rewrite nth_error_map, H.
Qed.

(** ** Queries at the time of a sample *)

(** A query at a time [t] of the trajectory: the nearest sample is the
    first one whose time is [t]. *)
Lemma nearest_at_first_occurrence (times : list R) (k : nat) (t : R) :
  nth_error times k = Some t ->
  (forall j u, (j < k)%nat -> nth_error times j = Some u -> u <> t) ->
  np_argmin (map (fun u => Rabs (u - t)) times) = Some k.
Proof.
  intros Hk Hbefore.
  apply np_argmin_first_min with (v := Rabs (t - t)).
  - now apply (nth_error_map_some (fun u => Rabs (u - t))).
  - intros j x Hj Hx.
    rewrite nth_error_map in Hx.
    destruct (nth_error times j) as [ u | ] eqn:Hu; [ | discriminate ].
    injection Hx as <-.
    pose proof (Hbefore j u Hj Hu).
    rewrite Rminus_diag, Rabs_R0.
    apply Rabs_pos_lt; lra.
  - intros x Hx.
    apply in_map_iff in Hx as [ u [ <- _ ] ].
    rewrite Rminus_diag, Rabs_R0.
    apply Rabs_pos.
Qed.

Lemma first_occurrence (l : list R) (t : R) :
  In t l ->
  exists k : nat,
    nth_error l k = Some t
    /\ forall j u, (j < k)%nat -> nth_error l j = Some u -> u <> t.
Proof.
  induction l as [ | x l IH ]; intros Hin; [ contradiction | ].
  destruct (Req_dec_T x t) as [ -> | Hne ].
  - exists 0%nat; split; [ reflexivity | intros j u Hj; lia ].
  - destruct Hin as [ Hx | Hin ]; [ contradiction | ].
    destruct (IH Hin) as [ k [ Hk Hbefore ] ].
    exists (S k); split; [ exact Hk | ].
    intros [ | j ] u Hj Hu; cbn in Hu.
    + injection Hu as <-; exact Hne.
    + apply (Hbefore j); [ lia | exact Hu ].
Qed.

(** The times of a non-decreasing trajectory, compared index by index. *)
Lemma nondecreasing_nth (l : list R) :
  Sorted Rle l ->
  forall (i j : nat) (a b : R),
    nth_error l i = Some a -> nth_error l j = Some b -> (i <= j)%nat -> a <= b.
Proof.
  intros Hsorted.
  apply Sorted_StronglySorted in Hsorted; [ | exact Rle_trans ].
  induction Hsorted as [ | x l _ IH Hall ]; intros i j a b Hi Hj Hij.
  - now destruct i.
  - destruct i as [ | i ], j as [ | j ]; cbn in Hi, Hj.
    + injection Hi as <-; injection Hj as <-; lra.
    + injection Hi as <-.
      rewrite Forall_forall in Hall.
      apply Hall, (nth_error_In _ _ Hj).
    + lia.
    + apply (IH i j); [ assumption | assumption | lia ].
Qed.

(** ** Queries after the last time *)

Lemma increasing_le_last (l : list R) (a u : R) :
  Sorted Rlt (l ++ [a]) -> In u (l ++ [a]) -> u <= a.
Proof.
  intros Hsorted Hu.
  apply In_nth_error in Hu as [ j Hj ].
  assert (Hlen : (j < length (l ++ [a]))%nat)
    by (apply nth_error_Some; congruence).
  rewrite length_app in Hlen; cbn in Hlen.
  destruct (Nat.eq_dec j (length l)) as [ -> | Hne ].
  - rewrite nth_error_last in Hj; injection Hj as <-; lra.
  - left; apply (increasing_nth _ Hsorted j (length l)).
    + exact Hj.
    + apply nth_error_last.
    + lia.
Qed.

(** At or after the last time of a strictly increasing trajectory, the
    last sample is the nearest one. *)
Lemma nearest_after_end (times : list R) (t_end current_time : R) :
  Sorted Rlt (times ++ [t_end]) ->
  current_time >= t_end ->
  np_argmin (map (fun u => Rabs (u - current_time)) (times ++ [t_end]))
  = Some (length times).
Proof.
  intros Hsorted Hafter.
  apply np_argmin_first_min with (v := Rabs (t_end - current_time)).
  - apply (nth_error_map_some (fun u => Rabs (u - current_time))).
    apply nth_error_last.
  - intros j x Hj Hx.
    rewrite nth_error_map in Hx.
    destruct (nth_error (times ++ [t_end]) j) as [ u | ] eqn:Hu;
      [ | discriminate ].
    injection Hx as <-.
    pose proof (increasing_nth _ Hsorted j (length times) u t_end Hu
                  (nth_error_last times t_end) Hj).
    unfold Rabs; repeat settle_comparison; lra.
  - intros x Hx.
    apply in_map_iff in Hx as [ u [ <- Hu ] ].
    pose proof (increasing_le_last _ _ _ Hsorted Hu).
    unfold Rabs; repeat settle_comparison; lra.
Qed.

(** ** Binary64 values *)

Lemma SFcompare_antisym (x y : spec_float) :
  SFcompare y x = option_map CompOpp (SFcompare x y).
Proof.
  destruct x as [ s | s | | s m e ], y as [ s' | s' | | s' m' e' ];
    cbn [SFcompare option_map]; try reflexivity;
    try (destruct s; reflexivity); try (destruct s'; reflexivity);
    try (destruct s, s'; reflexivity).
  destruct s, s'; try reflexivity; f_equal;
    rewrite (Z.compare_antisym e e');
    destruct (e ?= e')%Z; cbn [CompOpp]; try reflexivity;
    rewrite (Pos.compare_cont_antisym m m' Eq); cbn [CompOpp];
    reflexivity.
Qed.

Lemma SFcompare_none (x y : spec_float) :
  SFcompare x y = None -> x = S754_nan \/ y = S754_nan.
Proof.
  destruct x as [ s | s | | s m e ], y as [ s' | s' | | s' m' e' ];
    cbn [SFcompare]; try discriminate; auto.
Qed.

Lemma SFcompare_self (x : spec_float) :
  x <> S754_nan -> SFcompare x x = Some Eq.
Proof.
  destruct x as [ s | s | | s m e ]; cbn [SFcompare]; intros Hx.
  - reflexivity.
  - now destruct s.
  - now elim Hx.
  - rewrite Z.compare_refl, Pos.compare_cont_refl; now destruct s.
Qed.

Lemma is_nan_spec (x : float) :
  is_nan x = true <-> Prim2SF x = S754_nan.
Proof.
  unfold is_nan; rewrite eqb_spec; unfold SFeqb; split.
  - intros H.
    destruct (Prim2SF x) as [ s | s | | s m e ] eqn:Hx; try reflexivity;
      rewrite SFcompare_self in H by discriminate; discriminate H.
  - now intros ->.
Qed.

(** A finite binary64 value is a zero or a normal or subnormal number. *)
Lemma is_finite_spec (x : float) :
  is_finite x = true ->
  (exists s, Prim2SF x = S754_zero s)
  \/ (exists s m e, Prim2SF x = S754_finite s m e).
Proof.
  unfold is_finite, is_infinity; intros H.
  apply Bool.negb_true_iff, Bool.orb_false_iff in H as [ Hnan Hinf ].
  rewrite eqb_spec, abs_spec in Hinf.
  replace (Prim2SF infinity) with (S754_infinity false) in Hinf
    by (vm_compute; reflexivity).
  destruct (Prim2SF x) as [ s | s | | s m e ] eqn:Hx.
  - left; eauto.
  - discriminate Hinf.
  - apply is_nan_spec in Hx; congruence.
  - right; eauto.
Qed.

(** [p - p] is +0 for every finite [p]. *)
Lemma binary64_difference_with_itself (p : float) :
  is_finite p = true -> Prim2SF (p - p) = S754_zero false.
Proof.
  intros Hp; rewrite sub_spec; unfold SF64sub, SFsub.
  destruct (is_finite_spec p Hp) as [ [ s -> ] | [ s [ m [ e -> ] ] ] ].
  - now destruct s.
  - now rewrite Z.sub_diag.
Qed.

(** Lines 97-99 on one element, with [position0 = position1 = p],
    [time0 = 0.0] and [time1 = 1.0]: the velocity is +0 and the position
    equals [p] (up to the sign of a zero). *)
Lemma binary64_hold_element (p current_time : float) :
  is_finite p = true ->
  is_finite current_time = true ->
  ((p - p) / (1 - 0))%float = 0%float
  /\ ((p - p) * (current_time - 0) / (1 - 0) + p =? p)%float = true.
Proof.
  intros Hp Ht.
  pose proof (binary64_difference_with_itself p Hp) as Hzero.
  assert (Hone : Prim2SF (1 - 0) = S754_finite false 4503599627370496 (-52))
    by (vm_compute; reflexivity).
  split.
  - apply Prim2SF_inj.
    rewrite div_spec, Hzero, Hone; reflexivity.
  - rewrite eqb_spec, add_spec, div_spec, mul_spec, Hzero, Hone.
    assert (Hdt : exists s,
              SF64mul (S754_zero false) (Prim2SF (current_time - 0))
              = S754_zero s).
    { rewrite sub_spec.
      replace (Prim2SF 0) with (S754_zero false) by (vm_compute; reflexivity).
      destruct (is_finite_spec _ Ht) as [ [ s -> ] | [ s [ m [ e -> ] ] ] ].
      - destruct s; cbn; eauto.
      - cbn; eauto. }
    destruct Hdt as [ s -> ].
    destruct (is_finite_spec p Hp) as [ [ sp -> ] | [ sp [ m [ e -> ] ] ] ].
    + now destruct s, sp.
    + cbn [SF64div SFdiv SF64add SFadd].
      unfold SFeqb; rewrite SFcompare_self; [ reflexivity | discriminate ].
Qed.

(** * The claims *)

(** ** The trajectory sampler *)

(** C3, at the input where the code departs from it.  A trajectory of the
    single sample (position (1, 2, 3), yaw 0.5, time 1) queried at time 0:
    [current_time < time_ref] holds at index 0, the index -1 reads the same
    sample again, the segment has duration [1 - 1 = 0], and both divisions
    are by zero.  [position_cmd] is not the sample's position ([0 / 0] is
    nan in every element); only [yaw_cmd] is the sample's yaw. *)
Example trajectory_control_single_sample_early :
  trajectory_control [(1, 2, 3)] [0.5] [1] 0
  = Some {| position_cmd := zero_divide;
            velocity_cmd := zero_divide;
            yaw_cmd := 0.5 |}.
Proof.
  assert (Hmin : np_argmin (map (fun t => Rabs (t - 0)) [1]) = Some 0%nat)
    by reflexivity.
  rewrite (trajectory_control_wraps _ _ _ _ _ 1 Hmin eq_refl
             (1, 2, 3) (1, 2, 3) 1 0.5);
    try reflexivity; [ | lra ].
  unfold interpolate, Vec3.div.
  repeat settle_comparison.
  reflexivity.
Qed.

(** The part of C3 that the code keeps: from the sample's time on, a
    single-sample trajectory is held, with zero velocity. *)
Lemma trajectory_control_single_sample_hold (s : sample) (current_time : R) :
  current_time >= sample_time s ->
  trajectory_control [sample_position s] [sample_yaw s] [sample_time s]
    current_time
  = Some {| position_cmd := value (sample_position s);
            velocity_cmd := value Vec3.zero;
            yaw_cmd := sample_yaw s |}.
Proof.
  intros Hafter.
  rewrite (trajectory_control_holds _ _ [sample_time s] current_time 0
             (sample_time s) eq_refl eq_refl
             (sample_position s) (sample_yaw s));
    try reflexivity; [ | lra ].
  unfold interpolate.
  now rewrite vec3_hold, vec3_still.
Qed.

(** The hold of the sample of time 1, one second later. *)
Lemma trajectory_control_single_sample_hold_witness :
  trajectory_control [(1, 2, 3)] [0.5] [1] 2
  = Some {| position_cmd := value (1, 2, 3);
            velocity_cmd := value Vec3.zero;
            yaw_cmd := 0.5 |}.
Proof.
  apply (trajectory_control_single_sample_hold
           {| sample_position := (1, 2, 3); sample_yaw := 0.5; sample_time := 1 |}
           2).
  cbn; lra.
Defined.

(** C6: the two-sample scenario of the specification, sampled half way.
    Both samples are 2.5 away from the query time; [np.argmin] picks
    index 0, and the segment from index 0 to index 1 is interpolated. *)
Example trajectory_control_midpoint :
  trajectory_control [(0, 0, 0); (10, 0, -5)] [0; 0] [0; 5] 2.5
  = Some {| position_cmd := value (5, 0, -2.5);
            velocity_cmd := value (2, 0, -1);
            yaw_cmd := 0 |}.
Proof.
  assert (Hmin : np_argmin (map (fun t => Rabs (t - 2.5)) [0; 5]) = Some 0%nat).
  { cbn; unfold Rabs; repeat settle_comparison; reflexivity. }
  rewrite (trajectory_control_forward _ _ _ _ _ 0 Hmin eq_refl
             (0, 0, 0) (10, 0, -5) 5 0);
    try reflexivity; [ | lra | cbn; lia ].
  unfold interpolate, Vec3.div; cbn.
  repeat settle_comparison; cbn.
  f_equal; f_equal; by_elements; lra.
Qed.

(** C7 as stated fails when two samples share a time.  The trajectory
    below has non-decreasing times (0 and 0); queried at the time of its
    sample of index 1, [np.argmin] returns index 0 (the first of the
    tied minima), so [yaw_cmd] is the yaw of index 0, and the segment from
    index 0 to index 1 has duration 0, so [position_cmd] is undefined. *)
Lemma trajectory_control_duplicate_time :
  let s0 := {| sample_position := (0, 0, 0); sample_yaw := 0; sample_time := 0 |} in
  let s1 := {| sample_position := (1, 0, 0); sample_yaw := 1; sample_time := 0 |} in
  let trajectory := [s0; s1] in
  Sorted Rle (map sample_time trajectory) /\
  nth_error trajectory 1 = Some s1 /\
  trajectory_control (map sample_position trajectory)
    (map sample_yaw trajectory) (map sample_time trajectory) (sample_time s1)
  = Some {| position_cmd := zero_divide;
            velocity_cmd := zero_divide;
            yaw_cmd := 0 |} /\
  ~ returns_sample
      (trajectory_control (map sample_position trajectory)
         (map sample_yaw trajectory) (map sample_time trajectory)
         (sample_time s1))
      s1.
Proof.
  cbv zeta; cbn [map sample_position sample_yaw sample_time].
  assert (Hrun :
    trajectory_control [(0, 0, 0); (1, 0, 0)] [0; 1] [0; 0] 0
    = Some {| position_cmd := zero_divide;
              velocity_cmd := zero_divide;
              yaw_cmd := 0 |}).
  { assert (Hmin : np_argmin (map (fun t => Rabs (t - 0)) [0; 0]) = Some 0%nat).
    { cbn; unfold Rabs; repeat settle_comparison; reflexivity. }
    rewrite (trajectory_control_forward _ _ _ _ _ 0 Hmin eq_refl
               (0, 0, 0) (1, 0, 0) 0 0);
      try reflexivity; [ | lra | cbn; lia ].
    unfold interpolate, Vec3.div.
    repeat settle_comparison.
    reflexivity. }
  repeat split.
  - repeat constructor; lra.
  - exact Hrun.
  - intros [ sp [ Hsp [ Hposition _ ] ] ].
    pose proof (eq_trans (eq_sym Hrun) Hsp) as Heq; injection Heq as <-.
    discriminate Hposition.
Qed.

(** A query at a time that two samples of a non-decreasing trajectory
    share is answered from a segment of zero duration: [np.argmin] stops at
    the first sample [k] of that time, the sample after it has the same
    time, and [position_cmd] is a division by zero. *)
Lemma trajectory_control_shared_time
    (trajectory : list sample) (i j : nat) (s s' : sample) :
  Sorted Rle (map sample_time trajectory) ->
  nth_error trajectory i = Some s ->
  nth_error trajectory j = Some s' ->
  j <> i ->
  sample_time s' = sample_time s ->
  exists yaw : R,
    trajectory_control (map sample_position trajectory)
      (map sample_yaw trajectory) (map sample_time trajectory)
      (sample_time s)
    = Some {| position_cmd := zero_divide;
              velocity_cmd := zero_divide;
              yaw_cmd := yaw |}.
Proof.
  intros Hsorted Hi Hj Hne Hshared.
  pose proof (nth_error_map_some sample_time _ _ _ Hi) as Ht.
  pose proof (nth_error_map_some sample_time _ _ _ Hj) as Ht'.
  rewrite Hshared in Ht'.
  destruct (first_occurrence (map sample_time trajectory) (sample_time s))
    as [ k [ Hk Hbefore ] ].
  { exact (nth_error_In _ _ Ht). }
  pose proof (nearest_at_first_occurrence _ _ _ Hk Hbefore) as Hmin.
  assert (Hki : (k <= i)%nat).
  { destruct (Nat.le_gt_cases k i) as [ Hle | Hgt ]; [ exact Hle | ].
    now elim (Hbefore i (sample_time s) Hgt Ht). }
  assert (Hkj : (k <= j)%nat).
  { destruct (Nat.le_gt_cases k j) as [ Hle | Hgt ]; [ exact Hle | ].
    now elim (Hbefore j (sample_time s) Hgt Ht'). }
  (* a later sample [later] of the same time *)
  assert (Hlater : exists later : nat,
            nth_error (map sample_time trajectory) later
            = Some (sample_time s) /\ (S k <= later)%nat).
  { destruct (Nat.eq_dec k i) as [ -> | Hki' ].
    - exists j; split; [ exact Ht' | lia ].
    - exists i; split; [ exact Ht | lia ]. }
  destruct Hlater as [ later [ Hlater Hafter ] ].
  assert (Hlen : (later < length trajectory)%nat).
  { rewrite <- (length_map sample_time); apply nth_error_Some; congruence. }
  destruct (nth_error trajectory k) as [ sk | ] eqn:Hsk;
    [ | apply nth_error_None in Hsk; lia ].
  destruct (nth_error trajectory (S k)) as [ sk1 | ] eqn:Hsk1;
    [ | apply nth_error_None in Hsk1; lia ].
  pose proof (nth_error_map_some sample_time _ _ _ Hsk1) as Htk1.
  assert (Hsame : sample_time sk1 = sample_time s).
  { pose proof (nondecreasing_nth _ Hsorted k (S k) _ _ Hk Htk1
                  (Nat.le_succ_diag_r k)).
    pose proof (nondecreasing_nth _ Hsorted (S k) later _ _ Htk1 Hlater
                  Hafter).
    lra. }
  rewrite Hsame in Htk1.
  exists (sample_yaw sk).
  rewrite (trajectory_control_forward _ _ _ _ _ _ Hmin Hk
             (sample_position sk) (sample_position sk1) (sample_time s)
             (sample_yaw sk)).
  - now rewrite interpolate_zero_duration.
  - lra.
  - rewrite length_map; lia.
  - exact (nth_error_map_some sample_position _ _ _ Hsk).
  - exact (nth_error_map_some sample_position _ _ _ Hsk1).
  - exact Htk1.
  - exact (nth_error_map_some sample_yaw _ _ _ Hsk).
Qed.

(** C7, amended, over the reals.  A query at the time of the sample of
    index [i] returns that sample's position and yaw whenever no other
    sample has that time; and on a trajectory with non-decreasing times it
    does so in that case only. *)
Theorem trajectory_control_at_unshared_time
    (trajectory : list sample) (i : nat) (s : sample) :
  nth_error trajectory i = Some s ->
  let result :=
    trajectory_control (map sample_position trajectory)
      (map sample_yaw trajectory) (map sample_time trajectory)
      (sample_time s) in
  (unshared_time trajectory i (sample_time s) -> returns_sample result s)
  /\ (Sorted Rle (map sample_time trajectory) ->
      returns_sample result s -> unshared_time trajectory i (sample_time s)).
Proof.
  intros Hi result; unfold result; clear result.
  pose proof (nth_error_map_some sample_time _ _ _ Hi) as Ht.
  pose proof (nth_error_map_some sample_position _ _ _ Hi) as Hp.
  pose proof (nth_error_map_some sample_yaw _ _ _ Hi) as Hy.
  split.
  - intros Hunshared.
    assert (Hmin : np_argmin
                     (map (fun u => Rabs (u - sample_time s))
                        (map sample_time trajectory)) = Some i).
    { apply nearest_at_first_occurrence; [ exact Ht | ].
      intros j u Hj Hu.
      rewrite nth_error_map in Hu.
      destruct (nth_error trajectory j) as [ s' | ] eqn:Hs'; [ | discriminate ].
      injection Hu as <-.
      apply (Hunshared j s' Hs'); lia. }
    assert (Hnot : ~ sample_time s < sample_time s) by lra.
    destruct (nth_error trajectory (S i)) as [ s' | ] eqn:Hnext.
    + (* a later sample exists: the segment from [i] to [i + 1] *)
      pose proof (nth_error_map_some sample_time _ _ _ Hnext) as Ht'.
      pose proof (nth_error_map_some sample_position _ _ _ Hnext) as Hp'.
      assert (Hin : (S i < length (map sample_position trajectory))%nat)
        by (apply nth_error_Some; congruence).
      pose proof (Hunshared (S i) s' Hnext (Nat.neq_succ_diag_l i)).
      eexists; split; [ | split ].
      * exact (trajectory_control_forward _ _ _ _ _ _ Hmin Ht _ _ _ _
                 Hnot Hin Hp Hp' Ht' Hy).
      * cbn; apply vec3_segment_start; assumption.
      * reflexivity.
    + (* [i] is the last index: the hold *)
      assert (Hlast : (length (map sample_position trajectory) <= S i)%nat).
      { rewrite length_map; now apply nth_error_None. }
      eexists; split; [ | split ].
      * exact (trajectory_control_holds _ _ _ _ _ _ Hmin Ht _ _
                 Hnot Hlast Hp Hy).
      * cbn; apply vec3_hold.
      * reflexivity.
  - intros Hsorted [ sp [ Hsp [ Hposition _ ] ] ] j s' Hj Hne Hshared.
    destruct (trajectory_control_shared_time _ _ _ _ _ Hsorted Hi Hj Hne Hshared)
      as [ yaw Hrun ].
    pose proof (eq_trans (eq_sym Hrun) Hsp) as Heq; injection Heq as <-.
    discriminate Hposition.
Qed.

(** The times 0, 0 and 5, queried at the time of the last sample: two
    earlier samples share a time, and the last one is returned. *)
Lemma trajectory_control_at_unshared_time_witness :
  returns_sample
    (trajectory_control [(0, 0, 0); (1, 0, 0); (10, 0, -5)] [0; 1; 2] [0; 0; 5] 5)
    {| sample_position := (10, 0, -5); sample_yaw := 2; sample_time := 5 |}.
Proof.
  apply (trajectory_control_at_unshared_time
           [ {| sample_position := (0, 0, 0); sample_yaw := 0; sample_time := 0 |};
             {| sample_position := (1, 0, 0); sample_yaw := 1; sample_time := 0 |};
             {| sample_position := (10, 0, -5); sample_yaw := 2; sample_time := 5 |} ]
           2
           {| sample_position := (10, 0, -5); sample_yaw := 2; sample_time := 5 |}
           eq_refl).
  intros [ | [ | [ | j ] ] ] s' Hj Hne; cbn in Hj;
    try (injection Hj as <-; cbn; lra).
  - now elim Hne.
  - now destruct j.
Defined.

(** C9: before the first time, with index 0 nearest, the earlier end of
    the segment is read at index -1, which is the last sample.  The result
    is the interpolation (lines 97-99) of the segment that runs from the
    last sample to the first, with the last sample's yaw. *)
Theorem trajectory_control_before_start_wraps
    (first : sample) (middle : list sample) (final : sample)
    (current_time : R) :
  let trajectory := first :: middle ++ [final] in
  np_argmin
    (map (fun t => Rabs (t - current_time)) (map sample_time trajectory))
  = Some 0%nat ->
  current_time < sample_time first ->
  trajectory_control (map sample_position trajectory)
    (map sample_yaw trajectory) (map sample_time trajectory) current_time
  = Some (interpolate (sample_position final) (sample_position first)
            (sample_time final) (sample_time first) (sample_yaw final)
            current_time).
Proof.
  intros trajectory Hmin Hbefore.
  apply (trajectory_control_wraps _ _ _ _ _ _ Hmin);
    try reflexivity; try assumption.
  all: unfold trajectory; rewrite app_comm_cons, map_app.
  all: apply py_index_minus_one.
Qed.

(** The two-sample trajectory of the specification, queried one second
    before its start: the segment runs from (10, 0, -5) at time 5 back to
    the origin at time 0, and the yaw is the last one. *)
Lemma trajectory_control_before_start_wraps_witness :
  trajectory_control [(0, 0, 0); (10, 0, -5)] [0; 1] [0; 5] (-1)
  = Some (interpolate (10, 0, -5) (0, 0, 0) 5 0 1 (-1)).
Proof.
  apply (trajectory_control_before_start_wraps
           {| sample_position := (0, 0, 0); sample_yaw := 0; sample_time := 0 |}
           []
           {| sample_position := (10, 0, -5); sample_yaw := 1; sample_time := 5 |}
           (-1)).
  - cbn; unfold Rabs; repeat settle_comparison; reflexivity.
  - cbn; lra.
Defined.

(** C10, amended.  At or after the last time, the last sample is held
    (its position, zero velocity, its yaw) whenever [np.argmin] takes the
    last sample for the nearest one; and over the reals, where the
    distances [|time - current_time|] are exact, [np.argmin] does take the
    last sample of every trajectory with strictly increasing times. *)
Theorem trajectory_control_after_end
    (front : list sample) (final : sample) (current_time : R) :
  let trajectory := front ++ [final] in
  let nearest :=
    np_argmin
      (map (fun t => Rabs (t - current_time)) (map sample_time trajectory)) in
  current_time >= sample_time final ->
  (nearest = Some (length front) ->
   trajectory_control (map sample_position trajectory)
     (map sample_yaw trajectory) (map sample_time trajectory) current_time
   = Some {| position_cmd := value (sample_position final);
             velocity_cmd := value Vec3.zero;
             yaw_cmd := sample_yaw final |})
  /\ (Sorted Rlt (map sample_time trajectory) ->
      nearest = Some (length front)).
Proof.
  intros trajectory nearest Hafter.
  unfold nearest, trajectory; clear nearest trajectory.
  rewrite (map_app sample_position), (map_app sample_yaw),
    (map_app sample_time); cbn [map].
  split.
  - intros Hmin.
    rewrite (trajectory_control_holds _ _ _ _ _ (sample_time final) Hmin
               ltac:(rewrite <- (length_map sample_time); apply nth_error_last)
               (sample_position final) (sample_yaw final)).
    + unfold interpolate; now rewrite vec3_hold, vec3_still.
    + lra.
    + rewrite length_app, length_map; cbn; lia.
    + rewrite <- (length_map sample_position); apply nth_error_last.
    + rewrite <- (length_map sample_yaw); apply nth_error_last.
  - intros Hsorted.
    rewrite <- (length_map sample_time).
    exact (nearest_after_end _ _ _ Hsorted Hafter).
Qed.

(** The two-sample trajectory of the specification, queried two seconds
    after its end. *)
Lemma trajectory_control_after_end_witness :
  trajectory_control [(0, 0, 0); (10, 0, -5)] [0; 1] [0; 5] 7
  = Some {| position_cmd := value (10, 0, -5);
            velocity_cmd := value Vec3.zero;
            yaw_cmd := 1 |}.
Proof.
  pose proof (trajectory_control_after_end
                [ {| sample_position := (0, 0, 0); sample_yaw := 0;
                     sample_time := 0 |} ]
                {| sample_position := (10, 0, -5); sample_yaw := 1;
                   sample_time := 5 |}
                7) as H.
  cbv zeta in H; cbn [map app sample_position sample_yaw sample_time length] in H.
  destruct H as [ Hheld Hnearest ]; [ lra | ].
  apply Hheld, Hnearest.
  repeat constructor; lra.
Defined.

(** ** The trajectory sampler on binary64 *)

(** C10 as stated fails on binary64, where the distances are rounded.
    The two-sample trajectory of the specification (times 0 and 5, strictly
    increasing) queried at [2^60], long after its end: the distances
    [|0 - 2^60|] and [|5 - 2^60|] both round to [2^60], [np.argmin]
    returns the first of the two, index 0, and the code extrapolates the
    segment from index 0 to index 1.  The velocity is (2, 0, -1) and not
    zero, the position is (2^61, 0, -2^60) and not the last one, and the yaw
    is the first one. *)
Example trajectory_control_rounded_tie :
  let time_trajectory := [0; 5]%float in
  let current_time := 0x1p60%float in
  (0 <? 5)%float = true
  /\ (5 <=? current_time)%float = true
  /\ map (fun t => abs (t - current_time)) time_trajectory
     = [0x1p60; 0x1p60]%float
  /\ Binary64.trajectory_control [(0, 0, 0); (10, 0, -5)]%float [0; 1]%float
       time_trajectory current_time
     = Some {| Binary64.position_cmd := (0x1p61, 0, -0x1p60)%float;
               Binary64.velocity_cmd := (2, 0, -1)%float;
               Binary64.yaw_cmd := 0%float |}.
Proof.
  vm_compute; repeat split; reflexivity.
Qed.

(** The same trajectory queried two seconds after its end, where the
    distances 7 and 2 are exact: the last sample is held. *)
Example trajectory_control_binary64_after_end :
  Binary64.trajectory_control [(0, 0, 0); (10, 0, -5)]%float [0; 1]%float
    [0; 5]%float 7%float
  = Some {| Binary64.position_cmd := (10, 0, -5)%float;
            Binary64.velocity_cmd := (0, 0, 0)%float;
            Binary64.yaw_cmd := 1%float |}.
Proof.
  vm_compute; reflexivity.
Qed.

(** The first part of C10 on binary64.  When the index that [np.argmin]
    returns is the last position's and the query time is not before that
    index's time, the position there is held with zero velocity, as long as
    that position and the query time are finite. *)
Lemma trajectory_control_binary64_holds
    (position_trajectory : list Binary64.vec3)
    (yaw_trajectory time_trajectory : list float) (current_time : float)
    (ind_min : nat) (time_ref : float) (position : Binary64.vec3)
    (yaw : float) :
  Binary64.np_argmin (map (fun t => abs (t - current_time)) time_trajectory)
  = Some ind_min ->
  nth_error time_trajectory ind_min = Some time_ref ->
  (current_time <? time_ref)%float = false ->
  (length position_trajectory <= S ind_min)%nat ->
  nth_error position_trajectory ind_min = Some position ->
  nth_error yaw_trajectory ind_min = Some yaw ->
  Binary64.is_finite3 position = true ->
  is_finite current_time = true ->
  exists held : Binary64.vec3,
    Binary64.trajectory_control position_trajectory yaw_trajectory
      time_trajectory current_time
    = Some {| Binary64.position_cmd := held;
              Binary64.velocity_cmd := (0, 0, 0)%float;
              Binary64.yaw_cmd := yaw |}
    /\ Binary64.eqb3 held position = true.
Proof.
  intros Hmin Href Hafter Hlast Hposition Hyaw Hfinite Htime.
  unfold Binary64.trajectory_control; rewrite Hmin.
  rewrite !py_index_of_nat, Href, Hafter, Hyaw, Hposition.
  destruct (Z.geb_spec (Z.of_nat ind_min)
              (Z.of_nat (length position_trajectory) - 1)); [ | lia ].
  destruct position as [[x y] z].
  unfold Binary64.is_finite3 in Hfinite.
  apply Bool.andb_true_iff in Hfinite as [ Hfinite Hz ].
  apply Bool.andb_true_iff in Hfinite as [ Hx Hy ].
  destruct (binary64_hold_element x current_time Hx Htime) as [ Hvx Hpx ].
  destruct (binary64_hold_element y current_time Hy Htime) as [ Hvy Hpy ].
  destruct (binary64_hold_element z current_time Hz Htime) as [ Hvz Hpz ].
  eexists; split.
  - unfold Binary64.interpolate.
    cbn [Binary64.sub3 Binary64.scale3 Binary64.div3 Binary64.add3].
    rewrite Hvx, Hvy, Hvz; reflexivity.
  - cbn [Binary64.eqb3]; now rewrite Hpx, Hpy, Hpz.
Qed.

(** C7 on binary64 asks for more than an unshared time: the difference
    [position1 - position0] must not overflow.  With the finite positions
    [-2^1023] and [2^1023] it is an infinity, its product with
    [current_time - time0 = 0] is nan, and so is [position_cmd]. *)
Example trajectory_control_position_overflow :
  is_finite 0x1p1023 = true
  /\ Binary64.trajectory_control
       [(-0x1p1023, 0, 0); (0x1p1023, 0, 0)]%float [0; 1]%float [0; 1]%float
       0%float
     = Some {| Binary64.position_cmd := (nan, 0, 0)%float;
               Binary64.velocity_cmd := (infinity, 0, 0)%float;
               Binary64.yaw_cmd := 0%float |}.
Proof.
  vm_compute; split; reflexivity.
Qed.

(** Inside a segment, rounding can make [np.argmin] miss both ends of the
    segment.  The times 0, [2^-67] and 10 are strictly increasing and the
    query time 1 lies in the segment from index 1 to index 2; the distances
    [|0 - 1|] and [|2^-67 - 1|] both round to 1, index 0 is taken, and the
    segment from index 0 to index 1 is extrapolated, to [10 * 2^67] in the
    first coordinate. *)
Example trajectory_control_rounded_segment :
  let time_trajectory := [0; 0x1p-67; 10]%float in
  (0 <? 0x1p-67)%float = true
  /\ (0x1p-67 <? 10)%float = true
  /\ (0x1p-67 <=? 1)%float = true
  /\ (1 <? 10)%float = true
  /\ map (fun t => abs (t - 1)) time_trajectory = [1; 1; 9]%float
  /\ Binary64.trajectory_control
       [(0, 0, 0); (10, 0, -5); (20, 0, -5)]%float [0; 1; 2]%float
       time_trajectory 1%float
     = Some {| Binary64.position_cmd := (0x1.4p70, 0, -0x1.4p69)%float;
               Binary64.velocity_cmd := (0x1.4p70, 0, -0x1.4p69)%float;
               Binary64.yaw_cmd := 0%float |}.
Proof.
  vm_compute; repeat split; reflexivity.
Qed.

(** With more positions than times, a query after the last time that
    [np.argmin] answers with an earlier index raises nothing: at [2^60]
    the times 0 and 5 tie at index 0, and the index 1 that is read next
    exists in both lists. *)
Example trajectory_control_extra_positions_tie :
  Binary64.trajectory_control
    [(0, 0, 0); (10, 0, -5); (20, 0, -5)]%float [0; 1]%float [0; 5]%float
    0x1p60%float
  = Some {| Binary64.position_cmd := (0x1p61, 0, -0x1p60)%float;
            Binary64.velocity_cmd := (2, 0, -1)%float;
            Binary64.yaw_cmd := 0%float |}.
Proof.
  vm_compute; reflexivity.
Qed.

(** ** Further properties of the trajectory sampler *)

Lemma increasing_nth_le (l : list R) :
  Sorted Rlt l ->
  forall (i j : nat) (a b : R),
    nth_error l i = Some a -> nth_error l j = Some b -> (i <= j)%nat -> a <= b.
Proof.
  intros Hsorted i j a b Hi Hj Hij.
  destruct (Nat.eq_dec i j) as [ -> | Hne ].
  - rewrite Hi in Hj; injection Hj as <-; lra.
  - left; apply (increasing_nth l Hsorted i j); [ assumption | assumption | lia ].
Qed.

(** Inside a segment of a strictly increasing trajectory, the nearest
    sample is one of the two ends of the segment: the earlier end when the
    query time is no further from it than from the later end. *)
Lemma nearest_within_segment (times : list R) (i : nat) (t0 t1 current_time : R) :
  Sorted Rlt times ->
  nth_error times i = Some t0 ->
  nth_error times (S i) = Some t1 ->
  t0 <= current_time < t1 ->
  np_argmin (map (fun u => Rabs (u - current_time)) times)
  = Some (if Rlt_dec (t1 - current_time) (current_time - t0) then S i else i).
Proof.
  intros Hsorted H0 H1 Hin.
  assert (Hcases : forall j u, nth_error times j = Some u ->
            ((j <= i)%nat /\ u <= t0) \/ ((S i <= j)%nat /\ t1 <= u)).
  { intros j u Hu.
    destruct (Nat.le_gt_cases j i) as [ Hle | Hgt ].
    - left; split; [ exact Hle | ].
      apply (increasing_nth_le times Hsorted j i); assumption.
    - right; split; [ exact Hgt | ].
      apply (increasing_nth_le times Hsorted (S i) j); assumption. }
  destruct (Rlt_dec (t1 - current_time) (current_time - t0)) as [ Hlate | Hearly ].
  - apply np_argmin_first_min with (v := Rabs (t1 - current_time)).
    + now apply (nth_error_map_some (fun u => Rabs (u - current_time))).
    + intros j x Hj Hx.
      rewrite nth_error_map in Hx.
      destruct (nth_error times j) as [ u | ] eqn:Hu; [ | discriminate ].
      injection Hx as <-.
      destruct (Hcases j u Hu) as [ [ _ Hle ] | [ Hge _ ] ]; [ | lia ].
      unfold Rabs; repeat settle_comparison; lra.
    + intros x Hx.
      apply in_map_iff in Hx as [ u [ <- Hu ] ].
      apply In_nth_error in Hu as [ j Hu ].
      destruct (Hcases j u Hu) as [ [ _ Hle ] | [ _ Hge ] ];
        unfold Rabs; repeat settle_comparison; lra.
  - apply np_argmin_first_min with (v := Rabs (t0 - current_time)).
    + now apply (nth_error_map_some (fun u => Rabs (u - current_time))).
    + intros j x Hj Hx.
      rewrite nth_error_map in Hx.
      destruct (nth_error times j) as [ u | ] eqn:Hu; [ | discriminate ].
      injection Hx as <-.
      pose proof (increasing_nth times Hsorted j i u t0 Hu H0 Hj).
      unfold Rabs; repeat settle_comparison; lra.
    + intros x Hx.
      apply in_map_iff in Hx as [ u [ <- Hu ] ].
      apply In_nth_error in Hu as [ j Hu ].
      destruct (Hcases j u Hu) as [ [ _ Hle ] | [ _ Hge ] ];
        unfold Rabs; repeat settle_comparison; lra.
Qed.

(** Over the reals: inside a segment of a strictly increasing trajectory
    the sampler interpolates that segment, whichever of its two ends is
    nearest, and takes the yaw of its earlier end.  (On binary64 two
    rounded distances can tie at an earlier index:
    [trajectory_control_rounded_segment].) *)
Theorem trajectory_control_within_segment
    (trajectory : list sample) (i : nat) (s0 s1 : sample) (current_time : R) :
  Sorted Rlt (map sample_time trajectory) ->
  nth_error trajectory i = Some s0 ->
  nth_error trajectory (S i) = Some s1 ->
  sample_time s0 <= current_time < sample_time s1 ->
  trajectory_control (map sample_position trajectory)
    (map sample_yaw trajectory) (map sample_time trajectory) current_time
  = Some (interpolate (sample_position s0) (sample_position s1)
            (sample_time s0) (sample_time s1) (sample_yaw s0) current_time).
Proof.
  intros Hsorted H0 H1 Hin.
  pose proof (nth_error_map_some sample_time _ _ _ H0) as Ht0.
  pose proof (nth_error_map_some sample_time _ _ _ H1) as Ht1.
  pose proof (nth_error_map_some sample_position _ _ _ H0) as Hp0.
  pose proof (nth_error_map_some sample_position _ _ _ H1) as Hp1.
  pose proof (nth_error_map_some sample_yaw _ _ _ H0) as Hy0.
  pose proof (nearest_within_segment _ _ _ _ _ Hsorted Ht0 Ht1 Hin) as Hmin.
  destruct (Rlt_dec (sample_time s1 - current_time)
              (current_time - sample_time s0)) as [ Hlate | Hearly ].
  - apply (trajectory_control_backward _ _ _ _ _ _ Hmin Ht1 i);
      try assumption; try reflexivity; lra.
  - apply (trajectory_control_forward _ _ _ _ _ _ Hmin Ht0);
      try assumption; try lra.
    apply nth_error_Some; congruence.
Qed.

(** The two-sample trajectory of the specification at time 4, where the
    later sample is the nearest. *)
Lemma trajectory_control_within_segment_witness :
  trajectory_control [(0, 0, 0); (10, 0, -5)] [0; 1] [0; 5] 4
  = Some (interpolate (0, 0, 0) (10, 0, -5) 0 5 0 4).
Proof.
  apply (trajectory_control_within_segment
           [ {| sample_position := (0, 0, 0); sample_yaw := 0; sample_time := 0 |};
             {| sample_position := (10, 0, -5); sample_yaw := 1; sample_time := 5 |} ]
           0
           {| sample_position := (0, 0, 0); sample_yaw := 0; sample_time := 0 |}
           {| sample_position := (10, 0, -5); sample_yaw := 1; sample_time := 5 |}
           4).
  - cbn; repeat constructor; lra.
  - reflexivity.
  - reflexivity.
  - cbn; lra.
Defined.

Lemma argmin_scan_bound (l : list R) (i : nat) (best : R) (ibest : nat) :
  (ibest < i)%nat -> (argmin_scan l i best ibest < i + length l)%nat.
Proof.
  revert i best ibest; induction l as [ | x l IH ]; intros i best ibest Hi; cbn.
  - lia.
  - destruct (Rlt_dec x best).
    + specialize (IH (S i) x i); lia.
    + specialize (IH (S i) best ibest); lia.
Qed.

Lemma np_argmin_bound (l : list R) (k : nat) :
  np_argmin l = Some k -> (k < length l)%nat.
Proof.
  destruct l as [ | x l ]; cbn; [ discriminate | ].
  intros H; injection H as <-.
  pose proof (argmin_scan_bound l 1 x 0); lia.
Qed.

(** The call returns exactly on the trajectories of at least one sample:
    on those no index is out of range, and on the empty one [np.argmin]
    raises. *)
Theorem trajectory_control_returns (trajectory : list sample) (current_time : R) :
  (exists sp : setpoint,
     trajectory_control (map sample_position trajectory)
       (map sample_yaw trajectory) (map sample_time trajectory) current_time
     = Some sp)
  <-> trajectory <> [].
Proof.
  split.
  { intros [ sp Hsp ] ->; discriminate Hsp. }
  intros Hne.
  destruct (np_argmin (map (fun t => Rabs (t - current_time))
                         (map sample_time trajectory))) as [ k | ] eqn:Hmin.
  2: { destruct trajectory; [ contradiction | discriminate ]. }
  pose proof (np_argmin_bound _ _ Hmin) as Hk; rewrite !length_map in Hk.
  destruct (nth_error trajectory k) as [ s | ] eqn:Hs;
    [ | apply nth_error_None in Hs; lia ].
  pose proof (nth_error_map_some sample_time _ _ _ Hs) as Ht.
  pose proof (nth_error_map_some sample_position _ _ _ Hs) as Hp.
  pose proof (nth_error_map_some sample_yaw _ _ _ Hs) as Hy.
  destruct (Rlt_dec current_time (sample_time s)) as [ Hbefore | Hafter ].
  - destruct k as [ | k ].
    + destruct (exists_last Hne) as [ front [ final Hsplit ] ].
      eexists.
      apply (trajectory_control_wraps _ _ _ _ _ _ Hmin Ht
               (sample_position final) (sample_position s)
               (sample_time final) (sample_yaw final));
        try reflexivity; try assumption.
      all: rewrite Hsplit, map_app; apply py_index_minus_one.
    + destruct (nth_error trajectory k) as [ s' | ] eqn:Hs';
        [ | apply nth_error_None in Hs'; lia ].
      eexists.
      exact (trajectory_control_backward _ _ _ _ _ _ Hmin Ht k _ _ _ _
               eq_refl Hbefore
               (nth_error_map_some sample_position _ _ _ Hs') Hp
               (nth_error_map_some sample_time _ _ _ Hs')
               (nth_error_map_some sample_yaw _ _ _ Hs')).
  - destruct (nth_error trajectory (S k)) as [ s' | ] eqn:Hs'.
    + eexists.
      assert (Hin : (S k < length (map sample_position trajectory))%nat).
      { rewrite length_map; apply nth_error_Some; congruence. }
      exact (trajectory_control_forward _ _ _ _ _ _ Hmin Ht _ _ _ _
               Hafter Hin Hp
               (nth_error_map_some sample_position _ _ _ Hs')
               (nth_error_map_some sample_time _ _ _ Hs') Hy).
    + eexists.
      assert (Hlast : (length (map sample_position trajectory) <= S k)%nat).
      { rewrite length_map; now apply nth_error_None. }
      exact (trajectory_control_holds _ _ _ _ _ _ Hmin Ht _ _
               Hafter Hlast Hp Hy).
Qed.

(** The single-sample trajectory queried before its sample. *)
Lemma trajectory_control_returns_witness :
  exists sp : setpoint,
    trajectory_control [(1, 2, 3)] [0.5] [1] 0 = Some sp.
Proof.
  apply (trajectory_control_returns
           [ {| sample_position := (1, 2, 3); sample_yaw := 0.5; sample_time := 1 |} ]
           0).
  discriminate.
Defined.

(** ** The lateral position controller *)

(** C8: the output is the PD law on each axis, with nothing clamped, and
    it is zero when the commands equal the state and the feedforward is
    zero. *)
Theorem lateral_position_control_pd_law (self : NonlinearController)
    (cmd_n cmd_e vel_cmd_n vel_cmd_e pos_n pos_e vel_n vel_e ff_n ff_e : R) :
  lateral_position_control self
    (cmd_n, cmd_e) (vel_cmd_n, vel_cmd_e) (pos_n, pos_e) (vel_n, vel_e)
    (ff_n, ff_e)
  = (Kp_lateral_pos self * (cmd_n - pos_n)
     + Kd_lateral_pos self * (vel_cmd_n - vel_n) + ff_n,
     Kp_lateral_pos self * (cmd_e - pos_e)
     + Kd_lateral_pos self * (vel_cmd_e - vel_e) + ff_e)
  /\
  lateral_position_control self
    (pos_n, pos_e) (vel_n, vel_e) (pos_n, pos_e) (vel_n, vel_e)
    lateral_ff_default
  = Vec2.zero.
Proof.
  split.
  - reflexivity.
  - unfold lateral_position_control, lateral_ff_default, Vec2.zero; cbn.
    by_elements; ring.
Qed.

(** ** The altitude controller on binary64 *)

(** The three lines of the clamp (159-162), on any float: a number comes
    out within the limits, nan comes out as nan. *)
Lemma binary64_clamp (thrust : float) :
  let clamped :=
    if (Binary64.MAX_THRUST <? thrust)%float then Binary64.MAX_THRUST
    else if (thrust <? 0)%float then 0%float
    else thrust in
  (is_nan thrust = false -> Binary64.within 0 Binary64.MAX_THRUST clamped)
  /\ (is_nan thrust = true -> is_nan clamped = true).
Proof.
  cbv zeta.
  assert (Hmax_number : Prim2SF Binary64.MAX_THRUST <> S754_nan)
    by (vm_compute; discriminate).
  assert (Hzero_number : Prim2SF 0 <> S754_nan)
    by (vm_compute; discriminate).
  destruct (Binary64.MAX_THRUST <? thrust)%float eqn:Habove;
    [ | destruct (thrust <? 0)%float eqn:Hbelow ].
  - split; [ intros _; split; reflexivity | ].
    intros H; apply is_nan_spec in H.
    rewrite ltb_spec, H in Habove; unfold SFltb in Habove.
    destruct (Prim2SF Binary64.MAX_THRUST); discriminate.
  - split; [ intros _; split; reflexivity | ].
    intros H; apply is_nan_spec in H.
    rewrite ltb_spec, H in Hbelow; discriminate.
  - split; [ | trivial ].
    intros Hnumber.
    assert (Hthrust : Prim2SF thrust <> S754_nan).
    { intros H; apply is_nan_spec in H; congruence. }
    unfold Binary64.within.
    rewrite ltb_spec in Habove, Hbelow.
    rewrite !leb_spec.
    unfold SFltb in Habove, Hbelow; unfold SFleb.
    rewrite (SFcompare_antisym (Prim2SF thrust) (Prim2SF 0)).
    rewrite (SFcompare_antisym (Prim2SF thrust) (Prim2SF Binary64.MAX_THRUST))
      in Habove.
    destruct (SFcompare (Prim2SF thrust) (Prim2SF 0))
      as [ [ | | ] | ] eqn:Hzero;
      destruct (SFcompare (Prim2SF thrust) (Prim2SF Binary64.MAX_THRUST))
        as [ [ | | ] | ] eqn:Hmax;
      cbn [option_map CompOpp] in Habove |- *;
      try discriminate; try (split; reflexivity).
    all: try (apply SFcompare_none in Hzero as [ H | H ]; contradiction).
    all: apply SFcompare_none in Hmax as [ H | H ]; contradiction.
Qed.

(** C1, amended, on binary64: for every input, finite or not, the thrust
    returned is within [0, MAX_THRUST] unless the quotient of line 157 is
    nan, and then nan is returned. *)
Theorem altitude_control_nan_or_within_limits
    (np_cos : float -> float) (Kp_alt Kd_alt : float)
    (altitude_cmd vertical_velocity_cmd altitude vertical_velocity : float)
    (roll pitch yaw : float) (acceleration_ff : float) :
  let thrust :=
    Binary64.altitude_control np_cos Kp_alt Kd_alt
      altitude_cmd vertical_velocity_cmd altitude vertical_velocity
      (roll, pitch, yaw) acceleration_ff in
  let quotient :=
    (Binary64.DRONE_MASS_KG
     * (Kp_alt * (altitude_cmd - altitude)
        + Kd_alt * (vertical_velocity_cmd - vertical_velocity)
        + acceleration_ff)
     / (np_cos roll * np_cos pitch))%float in
  (is_nan quotient = false -> Binary64.within 0 Binary64.MAX_THRUST thrust)
  /\ (is_nan quotient = true -> is_nan thrust = true).
Proof.
  intros thrust quotient.
  exact (binary64_clamp quotient).
Qed.

(** A climb of one metre from rest, level, with a feedforward of 10: the
    quotient is the number 7. *)
Lemma altitude_control_nan_or_within_limits_witness :
  Binary64.within 0 Binary64.MAX_THRUST
    (Binary64.altitude_control (fun _ => 1%float) 4 1.5
       1 0 0 0 (0, 0, 0)%float 10).
Proof.
  apply (altitude_control_nan_or_within_limits (fun _ => 1%float) 4 1.5
           1 0 0 0 0 0 0 10).
  vm_compute; reflexivity.
Defined.

(** Once [acc_cmd] is nan the thrust is nan, whatever [np_cos] returns. *)
Lemma binary64_nan_quotient (b_z : float) :
  is_nan (Binary64.DRONE_MASS_KG * nan / b_z)%float = true.
Proof.
  unfold is_nan.
  rewrite eqb_spec, div_spec.
  replace (Prim2SF (Binary64.DRONE_MASS_KG * nan)) with S754_nan
    by (vm_compute; reflexivity).
  reflexivity.
Qed.

Lemma altitude_control_overflow_any_cos (np_cos : float -> float)
    (roll pitch yaw : float) :
  is_nan
    (Binary64.altitude_control np_cos 4 1.5
       0x1p1023 (-0x1p1023) (-0x1p1023) 0x1p1023 (roll, pitch, yaw) 0)
  = true.
Proof.
  unfold Binary64.altitude_control.
  replace (4 * (0x1p1023 - - 0x1p1023) + 1.5 * (- 0x1p1023 - 0x1p1023) + 0)%float
    with nan by (vm_compute; reflexivity).
  apply binary64_clamp, binary64_nan_quotient.
Qed.

(** C1 as stated fails on finite inputs that overflow.  The altitude
    error [2^1023 - (-2^1023)] overflows to +inf and the velocity error
    [-2^1023 - 2^1023] to -inf, so [p_term] is +inf, [d_term] is -inf
    and [acc_cmd] is [inf - inf = nan]; the thrust is nan, which is neither
    above [MAX_THRUST] nor below 0, and is returned.  ([np_cos] is only
    applied to 0, where [np.cos] is 1; the outcome is the same for every
    [np_cos], by [altitude_control_overflow_any_cos].) *)
Example altitude_control_overflow :
  let thrust :=
    Binary64.altitude_control (fun _ => 1%float) 4 1.5
      0x1p1023 (-0x1p1023) (-0x1p1023) 0x1p1023 (0, 0, 0)%float 0 in
  is_finite 0x1p1023 = true
  /\ is_finite (-0x1p1023) = true
  /\ is_nan thrust = true
  /\ ~ Binary64.within 0 Binary64.MAX_THRUST thrust.
Proof.
  vm_compute; repeat split; discriminate || (intros [ H _ ]; discriminate H).
Qed.

(** ** The altitude controller over the reals *)

(** Over the reals the quotient of line 157 is undefined in a vertical
    attitude: with a roll of a quarter turn [b_z] is zero, and with no
    error and no feedforward the numerator is zero too. *)
Lemma altitude_control_quarter_turn :
  altitude_control default_controller 0 0 0 0 (PI / 2, 0, 0) 0 = zero_divide
  /\
  ~ exists thrust : R,
      altitude_control default_controller 0 0 0 0 (PI / 2, 0, 0) 0
      = value thrust
      /\ 0 <= thrust <= MAX_THRUST.
Proof.
  assert (Hrun :
    altitude_control default_controller 0 0 0 0 (PI / 2, 0, 0) 0 = zero_divide).
  { unfold altitude_control, np_divide.
    rewrite cos_PI2, Rmult_0_l.
    destruct (Req_dec_T 0 0) as [ _ | Hne ]; [ reflexivity | now elim Hne ]. }
  split; [ exact Hrun | ].
  intros [ thrust [ Hthrust _ ] ].
  rewrite Hrun in Hthrust; discriminate Hthrust.
Qed.

(** Over the reals, whenever [b_z = cos roll * cos pitch] is not zero the
    thrust is a number within [0, MAX_THRUST]. *)
Theorem altitude_control_within_limits (self : NonlinearController)
    (altitude_cmd vertical_velocity_cmd altitude vertical_velocity : R)
    (roll pitch yaw : R) (acceleration_ff : R) :
  cos roll * cos pitch <> 0 ->
  exists thrust : R,
    altitude_control self altitude_cmd vertical_velocity_cmd altitude
      vertical_velocity (roll, pitch, yaw) acceleration_ff
    = value thrust
    /\ 0 <= thrust <= MAX_THRUST.
Proof.
  intros Hbz.
  unfold altitude_control, np_divide.
  destruct (Req_dec_T (cos roll * cos pitch) 0) as [ Hz | _ ];
    [ contradiction | ].
  cbn [partial_map].
  eexists; split; [ reflexivity | ].
  unfold MAX_THRUST.
  repeat settle_comparison; lra.
Qed.

(** The same climb over the reals, level, with the feedforward 9.81. *)
Lemma altitude_control_within_limits_witness :
  exists thrust : R,
    altitude_control default_controller 1 0 0 0 (0, 0, 0) 9.81 = value thrust
    /\ 0 <= thrust <= MAX_THRUST.
Proof.
  apply (altitude_control_within_limits default_controller 1 0 0 0 0 0 0 9.81).
  rewrite cos_0; lra.
Defined.

(** Level and with no error in altitude or vertical velocity, the thrust
    is the mass times the feedforward acceleration, as long as that is
    within the limits. *)
Theorem altitude_control_hover (self : NonlinearController)
    (altitude vertical_velocity yaw acceleration_ff : R) :
  0 <= DRONE_MASS_KG * acceleration_ff <= MAX_THRUST ->
  altitude_control self altitude vertical_velocity altitude vertical_velocity
    (0, 0, yaw) acceleration_ff
  = value (DRONE_MASS_KG * acceleration_ff).
Proof.
  intros Hrange.
  unfold altitude_control, np_divide.
  rewrite cos_0.
  destruct (Req_dec_T (1 * 1) 0) as [ Hz | _ ]; [ lra | ].
  cbn [partial_map].
  replace (DRONE_MASS_KG
           * (Kp_alt self * (altitude - altitude)
              + Kd_alt self * (vertical_velocity - vertical_velocity)
              + acceleration_ff) / (1 * 1))
    with (DRONE_MASS_KG * acceleration_ff) by (field).
  repeat settle_comparison; reflexivity.
Qed.

(** Hover at an altitude of 3 with the feedforward 9.81. *)
Lemma altitude_control_hover_witness :
  altitude_control default_controller 3 0 3 0 (0, 0, 0) 9.81
  = value (DRONE_MASS_KG * 9.81).
Proof.
  apply (altitude_control_hover default_controller 3 0 0 9.81).
  unfold DRONE_MASS_KG, MAX_THRUST; lra.
Defined.

(** ** The roll-pitch controller *)

(** C5: without positive thrust the rate command is (0, 0), whatever the
    acceleration command, the attitude and the rotation matrix. *)
Theorem roll_pitch_controller_no_thrust
    (euler2RM : R -> R -> R -> mat3) (self : NonlinearController)
    (acceleration_cmd : vec2) (attitude : vec3) (thrust_cmd : R) :
  thrust_cmd <= 0 ->
  roll_pitch_controller euler2RM self acceleration_cmd attitude thrust_cmd
  = value (0, 0).
Proof.
  intros Hthrust.
  unfold roll_pitch_controller.
  destruct (Rgt_dec thrust_cmd 0) as [ Hpos | _ ]; [ lra | reflexivity ].
Qed.

(** Zero thrust, with the identity for rotation matrix. *)
Lemma roll_pitch_controller_no_thrust_witness :
  roll_pitch_controller
    (fun _ _ _ => ((1, 0, 0), (0, 1, 0), (0, 0, 1)))
    default_controller (3, -4) (0, 0, 0) 0
  = value (0, 0).
Proof.
  apply roll_pitch_controller_no_thrust; lra.
Defined.

(** With positive thrust and a rotation matrix whose entry [2,2] is not
    zero, the rate command is the product of the matrix
    [[R10, -R00], [R11, -R01]] / R22 with the proportional tilt errors, the
    target tilts being [acceleration_cmd / c] clipped into [-1, 1]. *)
Theorem roll_pitch_controller_rates
    (euler2RM : R -> R -> R -> mat3) (self : NonlinearController)
    (acc_n acc_e roll pitch yaw thrust_cmd : R) :
  let rot_mat := euler2RM roll pitch yaw in
  let c := -1 * thrust_cmd / DRONE_MASS_KG in
  let b_x_cmd_dot :=
    Kp_roll self * (np_clip (acc_n / c) (-1) 1 - entry rot_mat 0 2) in
  let b_y_cmd_dot :=
    Kp_pitch self * (np_clip (acc_e / c) (-1) 1 - entry rot_mat 1 2) in
  thrust_cmd > 0 ->
  entry rot_mat 2 2 <> 0 ->
  roll_pitch_controller euler2RM self (acc_n, acc_e) (roll, pitch, yaw)
    thrust_cmd
  = value
      ((entry rot_mat 1 0 * b_x_cmd_dot - entry rot_mat 0 0 * b_y_cmd_dot)
       / entry rot_mat 2 2,
       (entry rot_mat 1 1 * b_x_cmd_dot - entry rot_mat 0 1 * b_y_cmd_dot)
       / entry rot_mat 2 2).
Proof.
  intros rot_mat c b_x_cmd_dot b_y_cmd_dot Hthrust Hr22.
  unfold roll_pitch_controller, np_divide.
  destruct (Rgt_dec thrust_cmd 0) as [ _ | Hn ]; [ | contradiction ].
  assert (Hc : -1 * thrust_cmd / DRONE_MASS_KG <> 0).
  { unfold DRONE_MASS_KG; lra. }
  destruct (Req_dec_T (-1 * thrust_cmd / DRONE_MASS_KG) 0) as [ Hz | _ ];
    [ contradiction | ].
  fold rot_mat.
  destruct (Req_dec_T (entry rot_mat 2 2) 0) as [ Hz | _ ];
    [ contradiction | ].
  fold c b_x_cmd_dot b_y_cmd_dot.
  by_elements; field; exact Hr22.
Qed.

(** Level, with the identity for rotation matrix and a thrust of 5 N: an
    acceleration command of 2 m/s^2 to the north asks for a tilt
    [2 / (-10) = -0.2], that is for a pitch rate of [8 * -0.2 = -1.6]
    rad/s and no roll rate. *)
Lemma roll_pitch_controller_rates_witness :
  roll_pitch_controller
    (fun _ _ _ => ((1, 0, 0), (0, 1, 0), (0, 0, 1)))
    default_controller (2, 0) (0, 0, 0) 5
  = value (0, -1.6).
Proof.
  rewrite (roll_pitch_controller_rates
             (fun _ _ _ => ((1, 0, 0), (0, 1, 0), (0, 0, 1)))
             default_controller 2 0 0 0 0 5);
    cbn [entry]; try lra.
  cbn [Kp_roll Kp_pitch default_controller]; unfold DRONE_MASS_KG.
  replace (-1 * 5 / 0.5) with (-10) by lra.
  replace (2 / -10) with (-0.2) by lra.
  replace (0 / -10) with 0 by lra.
  rewrite !np_clip_inside by lra.
  by_elements; lra.
Defined.

(** ** The body-rate controller *)

Lemma norm_nonneg (a : vec3) : 0 <= Vec3.norm a.
Proof.
  destruct a as [[a0 a1] a2]; apply sqrt_pos.
Qed.

(** A vector of positive norm, multiplied by [bound] and divided by its
    norm, has norm [bound]. *)
Lemma norm_rescaled (a : vec3) (bound : R) :
  0 <= bound ->
  0 < Vec3.norm a ->
  exists b : vec3,
    Vec3.div (Vec3.scale a bound) (Vec3.norm a) = value b
    /\ b = Vec3.scale a (bound / Vec3.norm a)
    /\ Vec3.norm b = bound.
Proof.
  intros Hbound Hnorm.
  unfold Vec3.div.
  destruct (Req_dec_T (Vec3.norm a) 0) as [ Hz | Hnz ]; [ lra | ].
  destruct a as [[a0 a1] a2].
  set (n := Vec3.norm (a0, a1, a2)) in *.
  assert (Hsq : n * n = a0 * a0 + a1 * a1 + a2 * a2).
  { apply sqrt_sqrt; nra. }
  cbn [Vec3.scale].
  eexists; split; [ reflexivity | split ].
  - by_elements; field; exact Hnz.
  - cbn [Vec3.norm].
    apply sqrt_lem_1; [ nra | exact Hbound | ].
    transitivity (bound * bound * (a0 * a0 + a1 * a1 + a2 * a2) / (n * n)).
    + rewrite <- Hsq; field; exact Hnz.
    + field; exact Hnz.
Qed.

(** C4, amended: over the reals, that is with the products, the norm and
    the quotient computed exactly.  The moment is always defined, its norm
    never exceeds [MAX_TORQUE]; it is the unsaturated product
    [MOI * (Kp_rate * rate_err)] when that product's norm is at most
    [MAX_TORQUE], and otherwise that product rescaled by one positive
    factor to norm [MAX_TORQUE]. *)
Theorem body_rate_control_saturation (self : NonlinearController)
    (body_rate_cmd body_rate : vec3) :
  let unsaturated :=
    Vec3.mul MOI
      (Vec3.mul (Kp_p self, Kp_q self, Kp_r self)
         (Vec3.sub body_rate_cmd body_rate)) in
  exists moment : vec3,
    body_rate_control self body_rate_cmd body_rate = value moment
    /\ Vec3.norm moment <= MAX_TORQUE
    /\ (Vec3.norm unsaturated <= MAX_TORQUE -> moment = unsaturated)
    /\ (Vec3.norm unsaturated > MAX_TORQUE ->
        moment = Vec3.scale unsaturated (MAX_TORQUE / Vec3.norm unsaturated)
        /\ Vec3.norm moment = MAX_TORQUE).
Proof.
  intros unsaturated.
  unfold body_rate_control; fold unsaturated.
  destruct (Rgt_dec (Vec3.norm unsaturated) MAX_TORQUE) as [ Hover | Hunder ].
  - destruct (norm_rescaled unsaturated MAX_TORQUE) as [ b [ Hb [ Hscale Hnorm ] ] ].
    + unfold MAX_TORQUE; lra.
    + unfold MAX_TORQUE in Hover; lra.
    + exists b; repeat split; try assumption; try lra.
  - exists unsaturated; repeat split; try reflexivity; try lra.
Qed.

(** A yaw-rate error of 1000 rad/s: the unsaturated moment (0, 0, 50) is
    brought back to norm 1. *)
Lemma body_rate_control_saturation_witness :
  exists moment : vec3,
    body_rate_control default_controller (0, 0, 1000) (0, 0, 0) = value moment
    /\ Vec3.norm moment = MAX_TORQUE.
Proof.
  destruct (body_rate_control_saturation default_controller
              (0, 0, 1000) (0, 0, 0))
    as [ moment [ Hrun [ _ [ _ Hover ] ] ] ].
  exists moment; split; [ exact Hrun | ].
  apply Hover.
  cbn.
  replace (0.005 * (20 * (0 - 0)) * (0.005 * (20 * (0 - 0)))
           + 0.005 * (20 * (0 - 0)) * (0.005 * (20 * (0 - 0)))
           + 0.01 * (5 * (1000 - 0)) * (0.01 * (5 * (1000 - 0))))
    with (50 * 50) by lra.
  rewrite sqrt_square by lra.
  unfold MAX_TORQUE; lra.
Defined.

(** ** The body-rate controller on binary64 *)

(** C4 as stated fails on binary64, where the norm can overflow.  With the
    default gains and the finite rate error (2^600, 0, 0) the unsaturated
    moment is about (0.1 * 2^600, 0, 0), finite and far beyond
    [MAX_TORQUE]; its square overflows, [np.linalg.norm] returns infinity,
    and [m_c * MAX_TORQUE / m_c_value] is the zero vector: the moment
    returned has norm 0, not [MAX_TORQUE], and no direction. *)
Example body_rate_control_overflow :
  let body_rate_cmd := (0x1p600, 0, 0)%float in
  let body_rate := (0, 0, 0)%float in
  let unsaturated :=
    Binary64.mul3 Binary64.MOI
      (Binary64.mul3 (20, 20, 5)%float
         (Binary64.sub3 body_rate_cmd body_rate)) in
  let moment := Binary64.body_rate_control 20 20 5 body_rate_cmd body_rate in
  is_finite 0x1p600 = true
  /\ (exists m0 : float,
        unsaturated = (m0, 0, 0)%float
        /\ is_finite m0 = true
        /\ (Binary64.MAX_TORQUE <? m0)%float = true)
  /\ Binary64.norm unsaturated = infinity
  /\ moment = (0, 0, 0)%float
  /\ Binary64.norm moment = 0%float.
Proof.
  vm_compute; repeat split.
  eexists; repeat split.
Qed.

(** Rounding alone breaks the bound as well.  With the default gains and
    the rate error (60, 80, 0) the unsaturated moment is (6, 8, 0), of
    norm 10, and the moment returned is the pair of binary64 numbers
    nearest to 0.6 and 0.8: [5404319552844595 / 2^53] and
    [7205759403792794 / 2^53].  The sum of their squares exceeds
    [MAX_TORQUE^2 = 1], so the Euclidean norm of the moment returned
    exceeds [MAX_TORQUE]. *)
Example body_rate_control_rounding :
  let moment :=
    Binary64.body_rate_control 20 20 5 (60, 80, 0)%float (0, 0, 0)%float in
  let '(m0, m1, m2) := moment in
  Binary64.exact m0 = Some (5404319552844595, 2 ^ 53)%Z
  /\ Binary64.exact m1 = Some (7205759403792794, 2 ^ 53)%Z
  /\ Binary64.exact m2 = Some (0, 1)%Z
  /\ (5404319552844595 * 5404319552844595
      + 7205759403792794 * 7205759403792794 > 2 ^ 53 * 2 ^ 53)%Z.
Proof.
  vm_compute; repeat split.
Qed.

(** ** The yaw controller *)

Lemma PI_above_3 : 3 < PI.
Proof.
  pose proof PI2_3_2; lra.
Qed.

Lemma PI_below_52_15 : PI <= 52 / 15.
Proof.
  destruct (PI_ineq 1) as [ _ H ].
  cbn in H; unfold tg_alt, PI_tg in H; cbn in H.
  lra.
Qed.

(** C2 as stated fails for a yaw error of two full turns.  The error
    [4 * PI - 0] wrapped into (-pi, pi] is 0, for which the claimed output
    is [np_clip (Kp_yaw * 0) 0 (2 * PI) = 0]; the code subtracts [2 * PI]
    once, keeps an error of [2 * PI] and returns the upper limit
    [2 * PI]. *)
Lemma yaw_control_two_turns :
  yaw_control default_controller (4 * PI) 0 = 2 * PI
  /\
  ~ exists e : R,
      wrapped e (4 * PI - 0)
      /\ yaw_control default_controller (4 * PI) 0
         = np_clip (Kp_yaw default_controller * e) 0 (2 * PI).
Proof.
  pose proof PI_RGT_0 as Hpi.
  assert (Hrun : yaw_control default_controller (4 * PI) 0 = 2 * PI).
  { unfold yaw_control, np_clip; cbn [Kp_yaw default_controller].
    destruct (Rgt_dec (4 * PI - 0) PI) as [ _ | Hn ]; [ | lra ].
    rewrite Rmax_left by lra.
    rewrite Rmin_right by lra.
    reflexivity. }
  split; [ exact Hrun | ].
  intros [ e [ [ Hrange [ k Hk ] ] Hout ] ].
  assert (Hk2 : k = (-2)%Z).
  { assert (Hlo : IZR (-3) < IZR k) by (apply Rmult_lt_reg_r with PI; nra).
    assert (Hhi : IZR k < IZR (-1)) by (apply Rmult_lt_reg_r with PI; nra).
    apply lt_IZR in Hlo, Hhi; lia. }
  subst k.
  assert (He : e = 0) by lra.
  rewrite Hrun, He in Hout.
  cbn [Kp_yaw default_controller] in Hout.
  rewrite np_clip_inside in Hout by lra.
  lra.
Qed.

(** At an error of exactly [- PI] the code shifts nothing: the error stays
    at [- PI], outside (-pi, pi], and the output is the lower limit 0; the
    wrapped error is [PI], for which the clamped output would be the upper
    limit. *)
Lemma yaw_control_half_turn_back :
  yaw_control default_controller (- PI) 0 = 0
  /\
  ~ exists e : R,
      wrapped e (- PI - 0)
      /\ yaw_control default_controller (- PI) 0
         = np_clip (Kp_yaw default_controller * e) 0 (2 * PI).
Proof.
  pose proof PI_RGT_0 as Hpi.
  assert (Hrun : yaw_control default_controller (- PI) 0 = 0).
  { unfold yaw_control, np_clip; cbn [Kp_yaw default_controller].
    destruct (Rgt_dec (- PI - 0) PI) as [ Habove | _ ]; [ lra | ].
    destruct (Rlt_dec (- PI - 0) (- PI)) as [ Hbelow | _ ]; [ lra | ].
    rewrite Rmax_right by lra.
    rewrite Rmin_left by lra.
    reflexivity. }
  split; [ exact Hrun | ].
  intros [ e [ [ Hrange [ k Hk ] ] Hout ] ].
  assert (Hk1 : k = 1%Z).
  { assert (Hlo : IZR 0 < IZR k) by (apply Rmult_lt_reg_r with PI; nra).
    assert (Hhi : IZR k < IZR 2) by (apply Rmult_lt_reg_r with PI; nra).
    apply lt_IZR in Hlo, Hhi; lia. }
  subst k.
  assert (He : e = PI) by lra.
  rewrite Hrun, He in Hout.
  cbn [Kp_yaw default_controller] in Hout.
  unfold np_clip in Hout.
  rewrite Rmax_left in Hout by lra.
  rewrite Rmin_right in Hout by lra.
  lra.
Qed.

(** C2, amended.  The output is [Kp_yaw] times an error [e], clamped into
    [0, 2 * PI], where [e] is the yaw error shifted by one turn at most:
    down when it is above [PI], up when it is below [- PI].  That [e] is
    the error wrapped into (-pi, pi] when the error lies in
    (-3 pi, 3 pi] and is not [- PI].  The two examples of the claim hold
    for every gain whose product with the wrapped error lies within the
    clamp. *)
Theorem yaw_control_single_shift (self : NonlinearController) :
  (forall yaw_cmd yaw : R,
     let yaw_err := yaw_cmd - yaw in
     exists e : R,
       yaw_control self yaw_cmd yaw = np_clip (Kp_yaw self * e) 0 (2 * PI)
       /\ 0 <= yaw_control self yaw_cmd yaw <= 2 * PI
       /\ (yaw_err > PI -> e = yaw_err - 2 * PI)
       /\ (yaw_err < - PI -> e = yaw_err + 2 * PI)
       /\ (- PI <= yaw_err <= PI -> e = yaw_err)
       /\ (- 3 * PI < yaw_err <= 3 * PI -> yaw_err <> - PI -> wrapped e yaw_err))
  /\
  (0 <= Kp_yaw self * 0.1 <= 2 * PI ->
   yaw_control self 0.1 0 = Kp_yaw self * 0.1)
  /\
  (0 <= Kp_yaw self * (-6 + 2 * PI) <= 2 * PI ->
   yaw_control self (-3) 3 = Kp_yaw self * (-6 + 2 * PI)).
Proof.
  pose proof PI_above_3 as Hpi.
  pose proof PI_4 as Hpi4.
  repeat split.
  - intros yaw_cmd yaw yaw_err.
    unfold yaw_control; fold yaw_err.
    eexists; split; [ reflexivity | ].
    split; [ apply np_clip_within; lra | ].
    destruct (Rgt_dec yaw_err PI) as [ Habove | Hnot_above ];
      [ | destruct (Rlt_dec yaw_err (- PI)) as [ Hbelow | Hnot_below ] ].
    + repeat split; intros; try lra.
      exists (-1)%Z; lra.
    + repeat split; intros; try lra.
      exists 1%Z; lra.
    + repeat split; intros; try lra.
      exists 0%Z; lra.
  - intros Hgain.
    unfold yaw_control.
    destruct (Rgt_dec (0.1 - 0) PI) as [ Habove | _ ]; [ lra | ].
    destruct (Rlt_dec (0.1 - 0) (- PI)) as [ Hbelow | _ ]; [ lra | ].
    replace (0.1 - 0) with 0.1 by lra.
    apply np_clip_inside; exact Hgain.
  - intros Hgain.
    unfold yaw_control.
    destruct (Rgt_dec (-3 - 3) PI) as [ Habove | _ ]; [ lra | ].
    destruct (Rlt_dec (-3 - 3) (- PI)) as [ _ | Hnot_below ]; [ | lra ].
    replace (-3 - 3 + 2 * PI) with (-6 + 2 * PI) by lra.
    apply np_clip_inside; exact Hgain.
Qed.

(** With the default gain [Kp_yaw = 4.5] both examples are inside the
    clamp. *)
Lemma yaw_control_single_shift_witness :
  yaw_control default_controller 0.1 0 = 4.5 * 0.1
  /\ yaw_control default_controller (-3) 3 = 4.5 * (-6 + 2 * PI).
Proof.
  pose proof PI_above_3 as Hlo.
  pose proof PI_below_52_15 as Hhi.
  destruct (yaw_control_single_shift default_controller)
    as [ _ [ Hsmall Hwrap ] ].
  cbn [Kp_yaw default_controller] in Hsmall, Hwrap.
  split; [ apply Hsmall | apply Hwrap ]; lra.
Defined.

(** * Further properties *)

(** ** The trajectory sampler, continued *)

Lemma py_index_nil {A : Type} (i : Z) : py_index (@nil A) i = None.
Proof.
  unfold py_index; cbn [length].
  destruct (0 <=? i)%Z; [ now destruct (Z.to_nat i) | ].
  destruct (0 <=? i + Z.of_nat 0)%Z; [ now destruct (Z.to_nat _) | reflexivity ].
Qed.

(** Before the first time of a strictly increasing trajectory, the first
    sample is the nearest one. *)
Lemma nearest_before_start (t_first : R) (times : list R) (current_time : R) :
  Sorted Rlt (t_first :: times) ->
  current_time < t_first ->
  np_argmin (map (fun u => Rabs (u - current_time)) (t_first :: times))
  = Some 0%nat.
Proof.
  intros Hsorted Hbefore.
  apply np_argmin_first_min with (v := Rabs (t_first - current_time)).
  - reflexivity.
  - intros j x Hj; lia.
  - intros x Hx.
    apply in_map_iff in Hx as [ u [ <- Hu ] ].
    apply In_nth_error in Hu as [ j Hu ].
    pose proof (increasing_nth_le _ Hsorted 0 j t_first u eq_refl Hu
                  (Nat.le_0_l j)).
    unfold Rabs; repeat settle_comparison; lra.
Qed.

(** Every query before the first time of a strictly increasing trajectory
    of two samples or more is answered from the segment that runs from the
    last sample back to the first: index 0 is the nearest, index -1 the
    last sample, and the duration [time1 - time0] is negative. *)
Theorem trajectory_control_early_query
    (first : sample) (middle : list sample) (final : sample)
    (current_time : R) :
  let trajectory := first :: middle ++ [final] in
  Sorted Rlt (map sample_time trajectory) ->
  current_time < sample_time first ->
  trajectory_control (map sample_position trajectory)
    (map sample_yaw trajectory) (map sample_time trajectory) current_time
  = Some (interpolate (sample_position final) (sample_position first)
            (sample_time final) (sample_time first) (sample_yaw final)
            current_time)
  /\ sample_time first - sample_time final < 0.
Proof.
  intros trajectory Hsorted Hbefore.
  split.
  - assert (Hmin : np_argmin
                     (map (fun t => Rabs (t - current_time))
                        (map sample_time trajectory)) = Some 0%nat)
      by exact (nearest_before_start _ _ _ Hsorted Hbefore).
    apply (trajectory_control_wraps _ _ _ _ _ _ Hmin);
      try reflexivity; try assumption.
    all: unfold trajectory; rewrite app_comm_cons, map_app.
    all: apply py_index_minus_one.
  - assert (Hlast : nth_error (map sample_time trajectory)
                      (S (length middle)) = Some (sample_time final)).
    { unfold trajectory; cbn [map nth_error].
      rewrite map_app, <- (length_map sample_time); apply nth_error_last. }
    pose proof (increasing_nth _ Hsorted 0 (S (length middle))
                  (sample_time first) (sample_time final) eq_refl Hlast
                  (Nat.lt_0_succ _)).
    lra.
Qed.

(** The two-sample trajectory of the specification, one second early. *)
Lemma trajectory_control_early_query_witness :
  trajectory_control [(0, 0, 0); (10, 0, -5)] [0; 1] [0; 5] (-1)
  = Some (interpolate (10, 0, -5) (0, 0, 0) 5 0 1 (-1))
  /\ 0 - 5 < 0.
Proof.
  apply (trajectory_control_early_query
           {| sample_position := (0, 0, 0); sample_yaw := 0; sample_time := 0 |}
           []
           {| sample_position := (10, 0, -5); sample_yaw := 1; sample_time := 5 |}
           (-1)).
  - cbn; repeat constructor; lra.
  - cbn; lra.
Defined.

(** The result inside a segment, for the proofs below. *)
Lemma sampler_on_segment
    (trajectory : list sample) (i : nat) (s0 s1 : sample) (current_time : R) :
  Sorted Rlt (map sample_time trajectory) ->
  nth_error trajectory i = Some s0 ->
  nth_error trajectory (S i) = Some s1 ->
  sample_time s0 <= current_time < sample_time s1 ->
  trajectory_control (map sample_position trajectory)
    (map sample_yaw trajectory) (map sample_time trajectory) current_time
  = Some (interpolate (sample_position s0) (sample_position s1)
            (sample_time s0) (sample_time s1) (sample_yaw s0) current_time).
Proof.
  intros Hsorted H0 H1 Hin.
  pose proof (nth_error_map_some sample_time _ _ _ H0) as Ht0.
  pose proof (nth_error_map_some sample_time _ _ _ H1) as Ht1.
  pose proof (nth_error_map_some sample_position _ _ _ H0) as Hp0.
  pose proof (nth_error_map_some sample_position _ _ _ H1) as Hp1.
  pose proof (nth_error_map_some sample_yaw _ _ _ H0) as Hy0.
  pose proof (nearest_within_segment _ _ _ _ _ Hsorted Ht0 Ht1 Hin) as Hmin.
  destruct (Rlt_dec (sample_time s1 - current_time)
              (current_time - sample_time s0)) as [ Hlate | Hearly ].
  - apply (trajectory_control_backward _ _ _ _ _ _ Hmin Ht1 i);
      try assumption; try reflexivity; lra.
  - apply (trajectory_control_forward _ _ _ _ _ _ Hmin Ht0);
      try assumption; try lra.
    apply nth_error_Some; congruence.
Qed.

Lemma between_blend (a b num den : R) :
  0 < den -> 0 <= num <= den ->
  between a b ((b - a) * num / den + a).
Proof.
  intros Hden Hnum.
  assert (Hl : num / den * den = num) by (field; lra).
  assert (Hl0 : 0 <= num / den).
  { apply Rmult_le_reg_r with den; [ exact Hden | ]; rewrite Hl; lra. }
  assert (Hl1 : num / den <= 1).
  { apply Rmult_le_reg_r with den; [ exact Hden | ]; rewrite Hl; lra. }
  replace ((b - a) * num / den + a) with (a + (num / den) * (b - a))
    by (field; lra).
  unfold between, Rmin, Rmax.
  destruct (Rle_dec a b); nra.
Qed.

(** Over the reals: inside a segment of a strictly increasing trajectory
    the commanded position never leaves the box spanned by the two ends of
    the segment: the sampler does not overshoot.  (On binary64 it can:
    [trajectory_control_rounded_segment].) *)
Theorem trajectory_control_no_overshoot
    (trajectory : list sample) (i : nat) (s0 s1 : sample) (current_time : R) :
  Sorted Rlt (map sample_time trajectory) ->
  nth_error trajectory i = Some s0 ->
  nth_error trajectory (S i) = Some s1 ->
  sample_time s0 <= current_time < sample_time s1 ->
  exists (sp : setpoint) (p : vec3),
    trajectory_control (map sample_position trajectory)
      (map sample_yaw trajectory) (map sample_time trajectory) current_time
    = Some sp
    /\ position_cmd sp = value p
    /\ in_box (sample_position s0) (sample_position s1) p.
Proof.
  intros Hsorted H0 H1 Hin.
  rewrite (sampler_on_segment _ _ _ _ _ Hsorted H0 H1 Hin).
  destruct (sample_position s0) as [[x0 y0] z0].
  destruct (sample_position s1) as [[x1 y1] z1].
  rewrite interpolate_defined by lra.
  eexists; eexists; split; [ reflexivity | split; [ reflexivity | ] ].
  repeat split; apply between_blend; lra.
Qed.

(** The two-sample trajectory of the specification at time 4: the command
    (8, 0, -4) lies between the origin and (10, 0, -5). *)
Lemma trajectory_control_no_overshoot_witness :
  exists (sp : setpoint) (p : vec3),
    trajectory_control [(0, 0, 0); (10, 0, -5)] [0; 1] [0; 5] 4 = Some sp
    /\ position_cmd sp = value p
    /\ in_box (0, 0, 0) (10, 0, -5) p.
Proof.
  apply (trajectory_control_no_overshoot
           [ {| sample_position := (0, 0, 0); sample_yaw := 0; sample_time := 0 |};
             {| sample_position := (10, 0, -5); sample_yaw := 1; sample_time := 5 |} ]
           0
           {| sample_position := (0, 0, 0); sample_yaw := 0; sample_time := 0 |}
           {| sample_position := (10, 0, -5); sample_yaw := 1; sample_time := 5 |}
           4).
  - cbn; repeat constructor; lra.
  - reflexivity.
  - reflexivity.
  - cbn; lra.
Defined.

(** Over the reals: inside one segment of a strictly increasing
    trajectory the commanded velocity is constant and is the slope of the
    commanded position: two queries differ in position by the velocity
    times the time between them. *)
Theorem trajectory_control_velocity_is_slope
    (trajectory : list sample) (i : nat) (s0 s1 : sample) (ta tb : R) :
  Sorted Rlt (map sample_time trajectory) ->
  nth_error trajectory i = Some s0 ->
  nth_error trajectory (S i) = Some s1 ->
  sample_time s0 <= ta < sample_time s1 ->
  sample_time s0 <= tb < sample_time s1 ->
  exists (pa pb v : vec3) (ya yb : R),
    trajectory_control (map sample_position trajectory)
      (map sample_yaw trajectory) (map sample_time trajectory) ta
    = Some {| position_cmd := value pa; velocity_cmd := value v; yaw_cmd := ya |}
    /\
    trajectory_control (map sample_position trajectory)
      (map sample_yaw trajectory) (map sample_time trajectory) tb
    = Some {| position_cmd := value pb; velocity_cmd := value v; yaw_cmd := yb |}
    /\ Vec3.sub pb pa = Vec3.scale v (tb - ta).
Proof.
  intros Hsorted H0 H1 Ha Hb.
  rewrite (sampler_on_segment _ _ _ _ _ Hsorted H0 H1 Ha).
  rewrite (sampler_on_segment _ _ _ _ _ Hsorted H0 H1 Hb).
  destruct (sample_position s0) as [[x0 y0] z0].
  destruct (sample_position s1) as [[x1 y1] z1].
  rewrite !interpolate_defined by lra.
  do 5 eexists; split; [ reflexivity | split; [ reflexivity | ] ].
  cbn; by_elements; field; lra.
Qed.

(** The two-sample trajectory of the specification at times 1 and 4: the
    positions (2, 0, -1) and (8, 0, -4) differ by three times the velocity
    (2, 0, -1). *)
Lemma trajectory_control_velocity_is_slope_witness :
  exists (pa pb v : vec3) (ya yb : R),
    trajectory_control [(0, 0, 0); (10, 0, -5)] [0; 1] [0; 5] 1
    = Some {| position_cmd := value pa; velocity_cmd := value v; yaw_cmd := ya |}
    /\
    trajectory_control [(0, 0, 0); (10, 0, -5)] [0; 1] [0; 5] 4
    = Some {| position_cmd := value pb; velocity_cmd := value v; yaw_cmd := yb |}
    /\ Vec3.sub pb pa = Vec3.scale v (4 - 1).
Proof.
  apply (trajectory_control_velocity_is_slope
           [ {| sample_position := (0, 0, 0); sample_yaw := 0; sample_time := 0 |};
             {| sample_position := (10, 0, -5); sample_yaw := 1; sample_time := 5 |} ]
           0
           {| sample_position := (0, 0, 0); sample_yaw := 0; sample_time := 0 |}
           {| sample_position := (10, 0, -5); sample_yaw := 1; sample_time := 5 |}
           1 4).
  - cbn; repeat constructor; lra.
  - reflexivity.
  - reflexivity.
  - cbn; lra.
  - cbn; lra.
Defined.

(** Lists of unequal length are not refused on entry; they raise when an
    index misses.  With no position at all every query raises. *)
Theorem trajectory_control_no_positions
    (yaw_trajectory time_trajectory : list R) (current_time : R) :
  trajectory_control [] yaw_trajectory time_trajectory current_time = None.
Proof.
  unfold trajectory_control.
  destruct (np_argmin _) as [ ind_min | ]; [ | reflexivity ].
  destruct (py_index time_trajectory _) as [ time_ref | ]; [ | reflexivity ].
  destruct (Rlt_dec current_time time_ref).
  - now rewrite py_index_nil.
  - destruct (py_index yaw_trajectory _); [ | reflexivity ].
    rewrite !py_index_nil.
    now destruct (_ >=? _)%Z.
Qed.

(** Over the reals: with more positions than times, a query at or after
    the last time of a strictly increasing [time_trajectory] raises: the
    last time is the nearest, its index is not the last position's, so the
    code reads the time after the last one.  (On binary64 an earlier index
    can be taken, and then nothing raises:
    [trajectory_control_extra_positions_tie].) *)
Theorem trajectory_control_surplus_positions
    (position_trajectory : list vec3) (yaw_trajectory : list R)
    (times : list R) (t_end : R) (current_time : R) :
  Sorted Rlt (times ++ [t_end]) ->
  current_time >= t_end ->
  (length (times ++ [t_end]) < length position_trajectory)%nat ->
  trajectory_control position_trajectory yaw_trajectory (times ++ [t_end])
    current_time
  = None.
Proof.
  intros Hsorted Hafter Hsurplus.
  rewrite length_app in Hsurplus; cbn [length] in Hsurplus.
  unfold trajectory_control.
  rewrite (nearest_after_end _ _ _ Hsorted Hafter).
  rewrite !py_index_succ, !py_index_of_nat, nth_error_last.
  destruct (Rlt_dec current_time t_end) as [ Hlt | _ ]; [ lra | ].
  destruct (nth_error yaw_trajectory (length times)); [ | reflexivity ].
  destruct (Z.geb_spec (Z.of_nat (length times))
              (Z.of_nat (length position_trajectory) - 1)); [ lia | ].
  destruct (nth_error position_trajectory (length times)); [ | reflexivity ].
  destruct (nth_error position_trajectory (S (length times)));
    [ | reflexivity ].
  assert (Hnone : nth_error (times ++ [t_end]) (S (length times)) = None).
  { apply nth_error_None; rewrite length_app; cbn; lia. }
  now rewrite Hnone.
Qed.

(** Two times and three positions, queried at the last time. *)
Lemma trajectory_control_surplus_positions_witness :
  trajectory_control [(0, 0, 0); (10, 0, -5); (20, 0, -5)] [0; 0] [0; 5] 5
  = None.
Proof.
  apply (trajectory_control_surplus_positions
           [(0, 0, 0); (10, 0, -5); (20, 0, -5)] [0; 0] [0] 5 5).
  - cbn; repeat constructor; lra.
  - lra.
  - cbn; lia.
Defined.

(** ** The lateral position controller, continued *)

(** Over the reals: the acceleration command depends on positions and
    velocities through their errors only: moving the commanded and the
    actual position by one offset, and the commanded and the actual
    velocity by another, changes nothing. *)
Theorem lateral_position_control_translation (self : NonlinearController)
    (local_position_cmd local_velocity_cmd local_position local_velocity : vec2)
    (acceleration_ff offset drift : vec2) :
  lateral_position_control self
    (Vec2.add local_position_cmd offset) (Vec2.add local_velocity_cmd drift)
    (Vec2.add local_position offset) (Vec2.add local_velocity drift)
    acceleration_ff
  = lateral_position_control self
      local_position_cmd local_velocity_cmd local_position local_velocity
      acceleration_ff.
Proof.
  destruct local_position_cmd, local_velocity_cmd, local_position,
    local_velocity, acceleration_ff, offset, drift.
  unfold lateral_position_control; cbn.
  by_elements; ring.
Qed.

(** On binary64 the sums are rounded before the errors are taken, and an
    offset can absorb the error: a position error of [2^-60] gives the
    acceleration [6 * 2^-60], and gives none once both positions are moved
    by 1. *)
Example lateral_position_control_rounded_offset :
  Binary64.lateral_position_control 6 4
    (0x1p-60, 0)%float (0, 0)%float (0, 0)%float (0, 0)%float (0, 0)%float
  = (0x1.8p-58, 0)%float
  /\ Binary64.lateral_position_control 6 4
       (0x1p-60 + 1, 0 + 1)%float (0, 0)%float (0 + 1, 0 + 1)%float
       (0, 0)%float (0, 0)%float
     = (0, 0)%float.
Proof.
  vm_compute; split; reflexivity.
Qed.

(** ** The altitude controller over the reals, continued *)

Lemma thrust_clamp_monotone (q1 q2 : R) :
  q1 <= q2 ->
  (if Rgt_dec q1 MAX_THRUST then MAX_THRUST
   else if Rlt_dec q1 0 then 0 else q1)
  <= (if Rgt_dec q2 MAX_THRUST then MAX_THRUST
      else if Rlt_dec q2 0 then 0 else q2).
Proof.
  intros Hle; unfold MAX_THRUST.
  repeat settle_comparison; lra.
Qed.

(** Right side up ([b_z > 0]) and with a non-negative gain [Kp_alt], a
    higher altitude command never lowers the thrust. *)
Theorem altitude_control_monotone (self : NonlinearController)
    (altitude_low altitude_high : R)
    (vertical_velocity_cmd altitude vertical_velocity : R)
    (roll pitch yaw : R) (acceleration_ff : R) :
  0 <= Kp_alt self ->
  0 < cos roll * cos pitch ->
  altitude_low <= altitude_high ->
  exists thrust_low thrust_high : R,
    altitude_control self altitude_low vertical_velocity_cmd altitude
      vertical_velocity (roll, pitch, yaw) acceleration_ff
    = value thrust_low
    /\
    altitude_control self altitude_high vertical_velocity_cmd altitude
      vertical_velocity (roll, pitch, yaw) acceleration_ff
    = value thrust_high
    /\ thrust_low <= thrust_high.
Proof.
  intros Hgain Hbz Hle.
  unfold altitude_control, np_divide.
  destruct (Req_dec_T (cos roll * cos pitch) 0) as [ Hz | _ ]; [ lra | ].
  cbn [partial_map].
  eexists; eexists; split; [ reflexivity | split; [ reflexivity | ] ].
  apply thrust_clamp_monotone.
  unfold Rdiv; apply Rmult_le_compat_r.
  - left; now apply Rinv_0_lt_compat.
  - unfold DRONE_MASS_KG; nra.
Qed.

(** Level, default gains: commands of 1 m and 2 m above the vehicle. *)
Lemma altitude_control_monotone_witness :
  exists thrust_low thrust_high : R,
    altitude_control default_controller 1 0 0 0 (0, 0, 0) 0 = value thrust_low
    /\ altitude_control default_controller 2 0 0 0 (0, 0, 0) 0 = value thrust_high
    /\ thrust_low <= thrust_high.
Proof.
  apply (altitude_control_monotone default_controller 1 2 0 0 0 0 0 0 0).
  - cbn; lra.
  - rewrite cos_0; lra.
  - lra.
Defined.

(** Upside down ([b_z < 0]) the sign of the quotient is reversed: every
    demand for a non-negative acceleration is answered with zero thrust. *)
Theorem altitude_control_inverted (self : NonlinearController)
    (altitude_cmd vertical_velocity_cmd altitude vertical_velocity : R)
    (roll pitch yaw : R) (acceleration_ff : R) :
  cos roll * cos pitch < 0 ->
  0 <= Kp_alt self * (altitude_cmd - altitude)
       + Kd_alt self * (vertical_velocity_cmd - vertical_velocity)
       + acceleration_ff ->
  altitude_control self altitude_cmd vertical_velocity_cmd altitude
    vertical_velocity (roll, pitch, yaw) acceleration_ff
  = value 0.
Proof.
  intros Hbz Hacc.
  unfold altitude_control, np_divide.
  destruct (Req_dec_T (cos roll * cos pitch) 0) as [ Hz | _ ]; [ lra | ].
  cbn [partial_map].
  set (acc_cmd := Kp_alt self * (altitude_cmd - altitude)
                  + Kd_alt self * (vertical_velocity_cmd - vertical_velocity)
                  + acceleration_ff) in *.
  assert (Hq : DRONE_MASS_KG * acc_cmd / (cos roll * cos pitch) <= 0).
  { assert (Hinv : / (cos roll * cos pitch) < 0) by now apply Rinv_lt_0_compat.
    unfold Rdiv, DRONE_MASS_KG; nra. }
  unfold MAX_THRUST.
  repeat settle_comparison; f_equal; lra.
Qed.

(** Rolled by half a turn, with a climb of one metre commanded. *)
Lemma altitude_control_inverted_witness :
  altitude_control default_controller 1 0 0 0 (PI, 0, 0) 0 = value 0.
Proof.
  apply (altitude_control_inverted default_controller 1 0 0 0 PI 0 0 0).
  - rewrite cos_PI, cos_0; lra.
  - cbn; lra.
Defined.

(** ** The roll-pitch controller, continued *)

Lemma np_clip_low (x lo hi : R) : x <= lo -> lo <= hi -> np_clip x lo hi = lo.
Proof.
  intros Hx Hle; unfold np_clip.
  rewrite Rmax_right by exact Hx.
  now rewrite Rmin_left.
Qed.

Lemma np_clip_high (x lo hi : R) : hi <= x -> lo <= hi -> np_clip x lo hi = hi.
Proof.
  intros Hx Hle; unfold np_clip.
  rewrite Rmax_left by lra.
  now rewrite Rmin_right.
Qed.

(** The target tilt of an acceleration already clipped to the magnitude
    [bound] is the target tilt of the acceleration itself, for
    [c = - bound]. *)
Lemma tilt_of_clipped (x bound : R) :
  0 < bound ->
  np_clip (np_clip x (- bound) bound / - bound) (-1) 1
  = np_clip (x / - bound) (-1) 1.
Proof.
  intros Hbound.
  assert (Hinv : / - bound < 0) by (apply Rinv_lt_0_compat; lra).
  assert (Hunit : bound * / - bound = -1) by (field; lra).
  destruct (Rle_dec x (- bound)) as [ Hlow | Hnot_low ].
  - rewrite (np_clip_low x) by lra.
    rewrite (np_clip_high (x / - bound)) by (unfold Rdiv; nra).
    apply np_clip_high; unfold Rdiv; nra.
  - destruct (Rle_dec bound x) as [ Hhigh | Hnot_high ].
    + rewrite (np_clip_high x) by lra.
      rewrite (np_clip_low (x / - bound)) by (unfold Rdiv; nra).
      apply np_clip_low; unfold Rdiv; nra.
    + now rewrite (np_clip_inside x) by lra.
Qed.

(** The controller sees the acceleration command only up to the
    acceleration the thrust can give: with positive thrust, clipping each
    component of the command to magnitude [thrust_cmd / DRONE_MASS_KG]
    beforehand changes nothing. *)
Theorem roll_pitch_controller_saturates
    (euler2RM : R -> R -> R -> mat3) (self : NonlinearController)
    (acc_n acc_e : R) (attitude : vec3) (thrust_cmd : R) :
  let bound := thrust_cmd / DRONE_MASS_KG in
  thrust_cmd > 0 ->
  roll_pitch_controller euler2RM self
    (np_clip acc_n (- bound) bound, np_clip acc_e (- bound) bound)
    attitude thrust_cmd
  = roll_pitch_controller euler2RM self (acc_n, acc_e) attitude thrust_cmd.
Proof.
  intros bound Hthrust.
  assert (Hbound : 0 < bound) by (unfold bound, DRONE_MASS_KG; lra).
  unfold roll_pitch_controller, np_divide.
  destruct (Rgt_dec thrust_cmd 0) as [ _ | Hn ]; [ | contradiction ].
  replace (-1 * thrust_cmd / DRONE_MASS_KG) with (- bound)
    by (unfold bound, DRONE_MASS_KG; lra).
  destruct (Req_dec_T (- bound) 0) as [ Hz | _ ]; [ lra | ].
  now rewrite !tilt_of_clipped by exact Hbound.
Qed.

(** Level, with the identity for rotation matrix and a thrust of 5 N, that
    is 10 m/s^2: a command of 25 m/s^2 to the north is answered as one of
    10 m/s^2. *)
Lemma roll_pitch_controller_saturates_witness :
  roll_pitch_controller
    (fun _ _ _ => ((1, 0, 0), (0, 1, 0), (0, 0, 1)))
    default_controller
    (np_clip 25 (- (5 / DRONE_MASS_KG)) (5 / DRONE_MASS_KG),
     np_clip 0 (- (5 / DRONE_MASS_KG)) (5 / DRONE_MASS_KG))
    (0, 0, 0) 5
  = roll_pitch_controller
      (fun _ _ _ => ((1, 0, 0), (0, 1, 0), (0, 0, 1)))
      default_controller (25, 0) (0, 0, 0) 5.
Proof.
  apply (roll_pitch_controller_saturates
           (fun _ _ _ => ((1, 0, 0), (0, 1, 0), (0, 0, 1)))
           default_controller 25 0 (0, 0, 0) 5).
  lra.
Defined.

(** The division by the entry [2,2] of the rotation matrix is not guarded:
    with positive thrust and that entry zero (the body z axis horizontal)
    no rate command is defined. *)
Theorem roll_pitch_controller_horizontal
    (euler2RM : R -> R -> R -> mat3) (self : NonlinearController)
    (acceleration_cmd : vec2) (roll pitch yaw : R) (thrust_cmd : R) :
  thrust_cmd > 0 ->
  entry (euler2RM roll pitch yaw) 2 2 = 0 ->
  roll_pitch_controller euler2RM self acceleration_cmd (roll, pitch, yaw)
    thrust_cmd
  = zero_divide.
Proof.
  intros Hthrust Hr22.
  destruct acceleration_cmd as [ acc_n acc_e ].
  unfold roll_pitch_controller, np_divide.
  destruct (Rgt_dec thrust_cmd 0) as [ _ | Hn ]; [ | contradiction ].
  destruct (Req_dec_T (-1 * thrust_cmd / DRONE_MASS_KG) 0); [ reflexivity | ].
  rewrite Hr22.
  destruct (Req_dec_T 0 0) as [ _ | Hne ]; [ reflexivity | now elim Hne ].
Qed.

(** A rotation matrix of a quarter turn about the x axis, whose entry
    [2,2] is zero. *)
Lemma roll_pitch_controller_horizontal_witness :
  roll_pitch_controller
    (fun _ _ _ => ((1, 0, 0), (0, 0, -1), (0, 1, 0)))
    default_controller (2, 0) (PI / 2, 0, 0) 5
  = zero_divide.
Proof.
  apply (roll_pitch_controller_horizontal
           (fun _ _ _ => ((1, 0, 0), (0, 0, -1), (0, 1, 0)))
           default_controller (2, 0) (PI / 2) 0 0 5).
  - lra.
  - reflexivity.
Defined.

(** ** The body-rate controller, continued *)

Lemma norm_opposite (a : vec3) : Vec3.norm (Vec3.scale a (-1)) = Vec3.norm a.
Proof.
  destruct a as [[a0 a1] a2]; cbn.
  f_equal; ring.
Qed.

Lemma norm_square (a0 a1 a2 : R) :
  Vec3.norm (a0, a1, a2) * Vec3.norm (a0, a1, a2)
  = a0 * a0 + a1 * a1 + a2 * a2.
Proof.
  apply sqrt_sqrt; nra.
Qed.

(** The moment is an odd function of the rate error: exchanging the
    commanded and the measured rates reverses it. *)
Theorem body_rate_control_odd (self : NonlinearController)
    (body_rate_cmd body_rate : vec3) :
  exists moment : vec3,
    body_rate_control self body_rate_cmd body_rate = value moment
    /\ body_rate_control self body_rate body_rate_cmd
       = value (Vec3.scale moment (-1)).
Proof.
  destruct body_rate_cmd as [[c0 c1] c2], body_rate as [[r0 r1] r2].
  unfold body_rate_control.
  set (m := Vec3.mul MOI
              (Vec3.mul (Kp_p self, Kp_q self, Kp_r self)
                 (Vec3.sub (c0, c1, c2) (r0, r1, r2)))).
  replace (Vec3.mul MOI
             (Vec3.mul (Kp_p self, Kp_q self, Kp_r self)
                (Vec3.sub (r0, r1, r2) (c0, c1, c2))))
    with (Vec3.scale m (-1))
    by (unfold m, MOI; cbn; by_elements; ring).
  rewrite norm_opposite.
  destruct (Rgt_dec (Vec3.norm m) MAX_TORQUE) as [ Hover | Hunder ].
  - unfold Vec3.div.
    destruct (Req_dec_T (Vec3.norm m) 0) as [ Hz | Hnz ];
      [ unfold MAX_TORQUE in Hover; lra | ].
    destruct m as [[m0 m1] m2].
    eexists; split; [ reflexivity | ].
    cbn [Vec3.scale]; by_elements; field; exact Hnz.
  - eexists; split; reflexivity.
Qed.

(** No component of the moment exceeds [MAX_TORQUE] in magnitude. *)
Theorem body_rate_control_components (self : NonlinearController)
    (body_rate_cmd body_rate : vec3) :
  exists m_p m_q m_r : R,
    body_rate_control self body_rate_cmd body_rate = value (m_p, m_q, m_r)
    /\ Rabs m_p <= MAX_TORQUE
    /\ Rabs m_q <= MAX_TORQUE
    /\ Rabs m_r <= MAX_TORQUE.
Proof.
  assert (Hbound : exists moment,
            body_rate_control self body_rate_cmd body_rate = value moment
            /\ Vec3.norm moment <= MAX_TORQUE).
  { unfold body_rate_control.
    set (m := Vec3.mul MOI _).
    destruct (Rgt_dec (Vec3.norm m) MAX_TORQUE) as [ Hover | Hunder ].
    - destruct (norm_rescaled m MAX_TORQUE) as [ b [ Hb [ _ Hnorm ] ] ];
        [ unfold MAX_TORQUE; lra | unfold MAX_TORQUE in Hover; lra | ].
      exists b; split; [ exact Hb | lra ].
    - exists m; split; [ reflexivity | lra ]. }
  destruct Hbound as [ [[m_p m_q] m_r] [ Hrun Hnorm ] ].
  exists m_p, m_q, m_r; split; [ exact Hrun | ].
  pose proof (norm_square m_p m_q m_r) as Hsq.
  pose proof (norm_nonneg (m_p, m_q, m_r)) as Hpos.
  unfold MAX_TORQUE in *.
  repeat split; apply Rabs_le; nra.
Qed.

(** With the default gains the moment is [(0.1, 0.1, 0.05)] times the rate
    error, element by element, and is left as it is whenever the norm of
    the rate error is at most 10 rad/s. *)
Theorem body_rate_control_default_linear (p_cmd q_cmd r_cmd p q r : R) :
  Vec3.norm (Vec3.sub (p_cmd, q_cmd, r_cmd) (p, q, r)) <= 10 ->
  body_rate_control default_controller (p_cmd, q_cmd, r_cmd) (p, q, r)
  = value (0.1 * (p_cmd - p), 0.1 * (q_cmd - q), 0.05 * (r_cmd - r)).
Proof.
  intros Hsmall.
  unfold body_rate_control.
  set (m := Vec3.mul MOI _).
  assert (Hm : m = (0.1 * (p_cmd - p), 0.1 * (q_cmd - q), 0.05 * (r_cmd - r))).
  { unfold m, MOI; cbn; by_elements; lra. }
  destruct (Rgt_dec (Vec3.norm m) MAX_TORQUE) as [ Hover | _ ];
    [ | now rewrite Hm ].
  exfalso.
  cbn [Vec3.sub] in Hsmall.
  pose proof (norm_square (p_cmd - p) (q_cmd - q) (r_cmd - r)) as He.
  pose proof (norm_nonneg (p_cmd - p, q_cmd - q, r_cmd - r)) as Hepos.
  rewrite Hm in Hover.
  pose proof (norm_square (0.1 * (p_cmd - p)) (0.1 * (q_cmd - q))
                (0.05 * (r_cmd - r))) as Hmsq.
  pose proof (norm_nonneg (0.1 * (p_cmd - p), 0.1 * (q_cmd - q),
                           0.05 * (r_cmd - r))) as Hmpos.
  unfold MAX_TORQUE in Hover.
  set (norm_e := Vec3.norm (p_cmd - p, q_cmd - q, r_cmd - r)) in *.
  set (norm_m := Vec3.norm (0.1 * (p_cmd - p), 0.1 * (q_cmd - q),
                            0.05 * (r_cmd - r))) in *.
  clearbody norm_e norm_m; clear Hm m.
  assert (He100 : norm_e * norm_e <= 10 * 10)
    by (apply Rmult_le_compat; lra).
  assert (Hm1 : norm_m * norm_m <= 0.01 * (norm_e * norm_e)).
  { rewrite Hmsq, He.
    pose proof (Rle_0_sqr (r_cmd - r)) as Hr; unfold Rsqr in Hr.
    lra. }
  assert (Hm2 : 1 * 1 < norm_m * norm_m)
    by (apply Rmult_le_0_lt_compat; lra).
  lra.
Qed.

(** A roll-rate error of 6 rad/s and a pitch-rate error of 8 rad/s, of
    norm 10. *)
Lemma body_rate_control_default_linear_witness :
  body_rate_control default_controller (6, 8, 0) (0, 0, 0)
  = value (0.1 * (6 - 0), 0.1 * (8 - 0), 0.05 * (0 - 0)).
Proof.
  apply (body_rate_control_default_linear 6 8 0 0 0 0).
  cbn.
  replace ((6 - 0) * (6 - 0) + (8 - 0) * (8 - 0) + (0 - 0) * (0 - 0))
    with (10 * 10) by lra.
  rewrite sqrt_square; lra.
Defined.

(** ** The yaw controller, continued *)

(** The clamp to [0, 2 * PI] leaves no negative rate: with a non-negative
    gain, a yaw error between [- PI] and 0 (the command is behind the
    vehicle) is answered with a zero rate. *)
Theorem yaw_control_never_turns_back (self : NonlinearController)
    (yaw_cmd yaw : R) :
  0 <= Kp_yaw self ->
  - PI <= yaw_cmd - yaw <= 0 ->
  yaw_control self yaw_cmd yaw = 0.
Proof.
  intros Hgain Herr.
  pose proof PI_RGT_0 as Hpi.
  unfold yaw_control.
  destruct (Rgt_dec (yaw_cmd - yaw) PI) as [ Habove | _ ]; [ lra | ].
  destruct (Rlt_dec (yaw_cmd - yaw) (- PI)) as [ Hbelow | _ ]; [ lra | ].
  apply np_clip_low; nra.
Qed.

(** The vehicle one radian ahead of the command. *)
Lemma yaw_control_never_turns_back_witness :
  yaw_control default_controller 0 1 = 0.
Proof.
  pose proof PI_above_3 as Hpi.
  apply yaw_control_never_turns_back.
  - cbn; lra.
  - lra.
Defined.

(** Over the reals: a command that differs by one full turn gives the
    same rate, as long as the yaw error itself lies strictly within half a
    turn. *)
Theorem yaw_control_full_turn (self : NonlinearController) (yaw_cmd yaw : R) :
  - PI < yaw_cmd - yaw < PI ->
  yaw_control self (yaw_cmd + 2 * PI) yaw = yaw_control self yaw_cmd yaw
  /\ yaw_control self (yaw_cmd - 2 * PI) yaw = yaw_control self yaw_cmd yaw.
Proof.
  intros Herr.
  pose proof PI_RGT_0 as Hpi.
  unfold yaw_control.
  destruct (Rgt_dec (yaw_cmd - yaw) PI) as [ Habove | _ ]; [ lra | ].
  destruct (Rlt_dec (yaw_cmd - yaw) (- PI)) as [ Hbelow | _ ]; [ lra | ].
  split.
  - destruct (Rgt_dec (yaw_cmd + 2 * PI - yaw) PI) as [ _ | Hn ]; [ | lra ].
    do 2 f_equal; lra.
  - destruct (Rgt_dec (yaw_cmd - 2 * PI - yaw) PI) as [ Habove | _ ]; [ lra | ].
    destruct (Rlt_dec (yaw_cmd - 2 * PI - yaw) (- PI)) as [ _ | Hn ]; [ | lra ].
    do 2 f_equal; lra.
Qed.

(** A command of 0.1 rad against a yaw of 0. *)
Lemma yaw_control_full_turn_witness :
  yaw_control default_controller (0.1 + 2 * PI) 0
  = yaw_control default_controller 0.1 0
  /\ yaw_control default_controller (0.1 - 2 * PI) 0
     = yaw_control default_controller 0.1 0.
Proof.
  pose proof PI_above_3 as Hpi.
  apply yaw_control_full_turn; lra.
Defined.

(** On binary64 the turn is added and taken away with rounding.  With the
    default gain 4.5, a yaw command of [2^-60] against a yaw of 0 gives the
    rate [4.5 * 2^-60]; one turn [2 * np.pi] later the command is
    [2 * np.pi] itself, the error after the shift is 0, and so is the
    rate. *)
Example yaw_control_rounded_turn :
  Binary64.yaw_control 4.5 0x1p-60 0 = 0x1.2p-58%float
  /\ Binary64.yaw_control 4.5 (0x1p-60 + 2 * Binary64.np_pi) 0 = 0%float.
Proof.
  vm_compute; split; reflexivity.
Qed.
